(** * Eigen AVX math kernels ([Eigen/src/Core/arch/AVX/MathFunctions.h])

    A shallow embedding of the lane-parallel kernels [psin], [psqrt] and
    [prsqrt] (and of the delegating [plog], [pexp], [ptanh]) together with
    the properties of their bit-mask logic.

    Lanes are IEEE-754 bit patterns held in [Z]: a [Packet8f] is a list of
    eight 32-bit patterns, a [Packet4d] a list of four 64-bit patterns.
    Reinterpreting casts between float and integer packets are the identity
    on this representation.  Lane arithmetic is the round-to-nearest-even
    arithmetic of [SpecFloat] (the specification of Rocq's own floats,
    generic in precision and exponent range), wrapped with the NaN rules of
    the SSE/AVX unit: an invalid operation yields the "QNaN floating-point
    indefinite" pattern (sign set, quiet bit set), a NaN operand is returned
    quieted.  The control register of the unit keeps its default value:
    rounding to nearest even, denormals neither flushed nor read as zero.
    The hardware reciprocal-square-root estimate, whose table is not
    architecturally defined, is a parameter.

    Every intrinsic and packet primitive is executed as the source writes
    it, one rounding per operation: the compiler is taken not to contract a
    product and the sum or difference that follows it ([pmul] then [padd] or
    [psub]) into one fused instruction, as with [-ffp-contract=off].  Only
    [pmadd] is fused, and only in a build that has FMA. *)

From Stdlib Require Import ZArith List Bool Lia.
From Stdlib Require Import Floats.SpecFloat.
Import ListNotations.
Local Open Scope Z_scope.

(* ================================================================== *)
(** ** IEEE-754 interchange formats as bit patterns *)

Section Format.
(** [prec] counts the significand bits including the hidden one, [ew] is
    the width of the exponent field: binary32 is (24, 8), binary64 is
    (53, 11). *)
Variables prec ew : Z.

Definition fmt_emax : Z := 2 ^ (ew - 1).
Definition fmt_emin : Z := emin prec fmt_emax.
Definition mant_bits : Z := prec - 1.
Definition width : Z := ew + prec.

Definition sign_bit (b : Z) : bool := Z.testbit b (width - 1).
Definition exp_field (b : Z) : Z := Z.land (Z.shiftr b mant_bits) (Z.ones ew).
Definition mant_field (b : Z) : Z := Z.land b (Z.ones mant_bits).

Definition decode (b : Z) : spec_float :=
  let s := sign_bit b in
  let e := exp_field b in
  let m := mant_field b in
  if e =? 0 then
    match m with
    | Zpos p => S754_finite s p fmt_emin
    | _ => S754_zero s
    end
  else if e =? Z.ones ew then
    if m =? 0 then S754_infinity s else S754_nan
  else
    match Z.lor m (Z.shiftl 1 mant_bits) with
    | Zpos p => S754_finite s p (e + fmt_emin - 1)
    | _ => S754_nan
    end.

Definition pack (s : bool) (e m : Z) : Z :=
  Z.lor (Z.shiftl (Z.b2z s) (width - 1))
    (Z.lor (Z.shiftl (Z.land e (Z.ones ew)) mant_bits)
           (Z.land m (Z.ones mant_bits))).

(** The default NaN of the SSE/AVX unit. *)
Definition indefinite : Z := pack true (Z.ones ew) (Z.shiftl 1 (mant_bits - 1)).

Definition encode (f : spec_float) : Z :=
  match f with
  | S754_zero s => pack s 0 0
  | S754_infinity s => pack s (Z.ones ew) 0
  | S754_nan => indefinite
  | S754_finite s m e =>
      if Z.pos m <? Z.shiftl 1 mant_bits then pack s 0 (Z.pos m)
      else pack s (e - fmt_emin + 1) (Z.pos m)
  end.

Definition is_nan (b : Z) : bool :=
  (exp_field b =? Z.ones ew) && negb (mant_field b =? 0).

Definition quiet (b : Z) : Z := Z.lor b (Z.shiftl 1 (mant_bits - 1)).

(** An arithmetic instruction on one lane: the first NaN operand wins and
    is quieted, otherwise the IEEE result is encoded. *)
Definition lift1 (f : spec_float -> spec_float) (a : Z) : Z :=
  if is_nan a then quiet a else encode (f (decode a)).

Definition lift2 (f : spec_float -> spec_float -> spec_float) (a b : Z) : Z :=
  if is_nan a then quiet a
  else if is_nan b then quiet b
  else encode (f (decode a) (decode b)).

Definition lift3 (f : spec_float -> spec_float -> spec_float -> spec_float)
    (a b c : Z) : Z :=
  if is_nan a then quiet a
  else if is_nan b then quiet b
  else if is_nan c then quiet c
  else encode (f (decode a) (decode b) (decode c)).

(** Fused multiply-add: the exact product is added to [z] and the sum is
    rounded once. *)
Definition SFfma (x y z : spec_float) : spec_float :=
  match x, y with
  | S754_nan, _ | _, S754_nan => S754_nan
  | S754_infinity _, S754_zero _ | S754_zero _, S754_infinity _ => S754_nan
  | S754_infinity sx, S754_infinity sy
  | S754_infinity sx, S754_finite sy _ _
  | S754_finite sx _ _, S754_infinity sy =>
      SFadd prec fmt_emax (S754_infinity (xorb sx sy)) z
  | S754_zero sx, S754_zero sy
  | S754_zero sx, S754_finite sy _ _
  | S754_finite sx _ _, S754_zero sy =>
      SFadd prec fmt_emax (S754_zero (xorb sx sy)) z
  | S754_finite sx mx ex, S754_finite sy my ey =>
      match z with
      | S754_nan => S754_nan
      | S754_infinity _ => z
      | S754_zero _ => SFmul prec fmt_emax x y
      | S754_finite sz mz ez =>
          let ep := ex + ey in
          let e := Z.min ep ez in
          binary_normalize prec fmt_emax
            (cond_Zopp (xorb sx sy) (Z.pos (fst (shl_align (mx * my) ep e)))
             + cond_Zopp sz (Z.pos (fst (shl_align mz ez e))))
            e false
      end
  end.

(** Rounding to an integral value toward minus infinity. *)
Definition SFfloor (x : spec_float) : spec_float :=
  match x with
  | S754_finite s m e =>
      if 0 <=? e then x
      else binary_normalize prec fmt_emax
             (Z.shiftr (cond_Zopp s (Z.pos m)) (- e)) 0 s
  | _ => x
  end.

(** The integer nearest to a finite value, ties to even. *)
Definition SFnearest_int (s : bool) (m : positive) (e : Z) : Z :=
  let n :=
    if 0 <=? e then Z.shiftl (Z.pos m) e
    else
      let '(mrs, _) := shr (Build_shr_record (Z.pos m) false false) e (- e) in
      round_nearest_even (shr_m mrs) (loc_of_shr_record mrs) in
  cond_Zopp s n.

(** Conversion to a signed integer of [iw] bits, as a two's complement
    pattern; what does not fit gives the "integer indefinite" 10...0. *)
Definition to_int_pattern (iw : Z) (b : Z) : Z :=
  match decode b with
  | S754_zero _ => 0
  | S754_finite s m e =>
      let n := SFnearest_int s m e in
      if (- 2 ^ (iw - 1) <=? n) && (n <? 2 ^ (iw - 1)) then n mod 2 ^ iw
      else 2 ^ (iw - 1)
  | _ => 2 ^ (iw - 1)
  end.

(** Ordered, quiet comparisons: false as soon as an operand is a NaN. *)
Definition lt_oq (a b : Z) : bool := SFltb (decode a) (decode b).
Definition ge_oq (a b : Z) : bool := SFleb (decode b) (decode a).
Definition gt_oq (a b : Z) : bool := SFltb (decode b) (decode a).

(** Exact rational reading of a pattern, as numerator over a power of two:
    [value_num b / 2 ^ value_shift b]. *)
Definition value_num (b : Z) : Z :=
  match decode b with
  | S754_finite s m e => cond_Zopp s (Z.pos m * 2 ^ Z.max e 0)
  | _ => 0
  end.
Definition value_shift (b : Z) : Z :=
  match decode b with
  | S754_finite _ _ e => Z.max (- e) 0
  | _ => 0
  end.
(** [b] is at least as close to the decimal [num / den] as [b'] is. *)
Definition closer (b b' num den : Z) : bool :=
  Z.abs (value_num b * den - num * 2 ^ value_shift b) * 2 ^ value_shift b'
  <=? Z.abs (value_num b' * den - num * 2 ^ value_shift b') * 2 ^ value_shift b.

(** [b] is a pattern of the format closest to [num / den]: no neighbour is
    closer. *)
Definition nearest_to (b num den : Z) : bool :=
  closer b (b - 1) num den && closer b (b + 1) num den.

(** [b] is exactly [num / den]. *)
Definition exactly (b num den : Z) : bool :=
  value_num b * den =? num * 2 ^ value_shift b.
End Format.

(* ================================================================== *)
(** ** Scalar lanes of the AVX unit *)

(** Single precision: the multiplication, addition, subtraction, division,
    square root and fused multiply-add of one lane, the rounding toward
    minus infinity of [roundps] and the conversion of [cvtps2dq]. *)
Definition is_u32 (b : Z) : bool := (0 <=? b) && (b <? 2 ^ 32).

Definition mulss : Z -> Z -> Z := lift2 24 8 (SFmul 24 128).
Definition addss : Z -> Z -> Z := lift2 24 8 (SFadd 24 128).
Definition subss : Z -> Z -> Z := lift2 24 8 (SFsub 24 128).
Definition divss : Z -> Z -> Z := lift2 24 8 (SFdiv 24 128).
Definition sqrtss : Z -> Z := lift1 24 8 (SFsqrt 24 128).
Definition vfmaddss : Z -> Z -> Z -> Z := lift3 24 8 (SFfma 24 8).
Definition roundss_floor : Z -> Z := lift1 24 8 (SFfloor 24 8).
Definition cvtss2si : Z -> Z := to_int_pattern 24 8 32.

(** Double precision: the division and the square root of one lane. *)
Definition is_u64 (b : Z) : bool := (0 <=? b) && (b <? 2 ^ 64).

Definition divsd : Z -> Z -> Z := lift2 53 11 (SFdiv 53 1024).
Definition sqrtsd : Z -> Z := lift1 53 11 (SFsqrt 53 1024).

(* ================================================================== *)
(** ** Packets and the AVX intrinsics used by the kernels *)

Definition Packet8f : Type := list Z.
Definition Packet8i : Type := list Z.
Definition Packet4d : Type := list Z.
Definition m128i : Type := list Z.

Definition wf_Packet8f (p : Packet8f) : bool :=
  (length p =? 8)%nat && forallb is_u32 p.
Definition wf_Packet4d (p : Packet4d) : bool :=
  (length p =? 4)%nat && forallb is_u64 p.

Definition lane (i : nat) (p : list Z) : Z := nth i p 0.

Fixpoint lanes2 (f : Z -> Z -> Z) (a b : list Z) : list Z :=
  match a, b with
  | x :: a', y :: b' => f x y :: lanes2 f a' b'
  | _, _ => []
  end.

Fixpoint lanes3 (f : Z -> Z -> Z -> Z) (a b c : list Z) : list Z :=
  match a, b, c with
  | x :: a', y :: b', z :: c' => f x y z :: lanes3 f a' b' c'
  | _, _, _ => []
  end.

(** The build configuration: the preprocessor symbols the file tests. *)
Record BuildConfig := {
  EIGEN_FAST_MATH : bool;
  EIGEN_VECTORIZE_AVX2 : bool;
  FMA : bool
}.

(** Comparison predicates of [_mm256_cmp_ps] that the file uses. *)
Inductive cmp_predicate := _CMP_LT_OQ | _CMP_GE_OQ | _CMP_GT_OQ.

Definition cmpss (a b : Z) (p : cmp_predicate) : Z :=
  let holds :=
    match p with
    | _CMP_LT_OQ => lt_oq 24 8 a b
    | _CMP_GE_OQ => ge_oq 24 8 a b
    | _CMP_GT_OQ => gt_oq 24 8 a b
    end in
  if holds then 0xFFFFFFFF else 0.

Definition _mm256_cmp_ps (a b : Packet8f) (p : cmp_predicate) : Packet8f :=
  lanes2 (fun x y => cmpss x y p) a b.
Definition _mm256_and_ps (a b : Packet8f) : Packet8f := lanes2 Z.land a b.
Definition _mm256_andnot_ps (a b : Packet8f) : Packet8f :=
  lanes2 (fun x y => Z.land (Z.lnot x) y) a b.
Definition _mm256_or_ps (a b : Packet8f) : Packet8f := lanes2 Z.lor a b.
Definition _mm256_xor_ps (a b : Packet8f) : Packet8f := lanes2 Z.lxor a b.
Definition _mm256_setzero_ps : Packet8f := repeat 0 8.
Definition _mm256_floor_ps (a : Packet8f) : Packet8f := map roundss_floor a.
Definition _mm256_cvtps_epi32 (a : Packet8f) : Packet8i := map cvtss2si a.
Definition _mm256_sqrt_ps (a : Packet8f) : Packet8f := map sqrtss a.
Definition _mm256_div_ps (a b : Packet8f) : Packet8f := lanes2 divss a b.
Definition _mm256_castps_si256 (a : Packet8f) : Packet8i := a.
Definition _mm256_castsi256_ps (a : Packet8i) : Packet8f := a.

Definition _mm256_sqrt_pd (a : Packet4d) : Packet4d := map sqrtsd a.
Definition _mm256_div_pd (a b : Packet4d) : Packet4d := lanes2 divsd a b.

(** Logical left shift of every 32-bit lane; a count above 31 clears it. *)
Definition slli32 (n : Z) (v : Z) : Z :=
  if 31 <? n then 0 else Z.land (Z.shiftl v n) 0xFFFFFFFF.
Definition _mm256_slli_epi32 (v : Packet8i) (n : Z) : Packet8i := map (slli32 n) v.
Definition _mm_slli_epi32 (v : m128i) (n : Z) : m128i := map (slli32 n) v.
Definition _mm256_extractf128_si256 (v : Packet8i) (half : nat) : m128i :=
  match half with
  | O => firstn 4 v
  | _ => skipn 4 v
  end.
(** The upper half of the cast is undefined in the hardware and zero here;
    [pshiftleft] overwrites it. *)
Definition _mm256_castsi128_si256 (lo : m128i) : Packet8i := lo ++ repeat 0 4.
Definition _mm256_insertf128_si256 (v : Packet8i) (x : m128i) (half : nat) : Packet8i :=
  match half with
  | O => x ++ skipn 4 v
  | _ => firstn 4 v ++ x
  end.

(** Modelled from the spec: [PacketMath.h], which declares the packet
    primitives [pset1], [pmul], [padd], [psub] and [pmadd], is missing.  They
    are the lane vector primitives of the spec: broadcast of a constant,
    elementwise arithmetic and multiply-add.  In each lane the multiply-add
    is the fused instruction when the build has FMA, and the rounded product
    followed by the rounded sum otherwise. *)
Definition maddss (cfg : BuildConfig) (a b c : Z) : Z :=
  if FMA cfg then vfmaddss a b c else addss (mulss a b) c.

Definition pset1 (c : Z) : Packet8f := repeat c 8.
Definition pset1_4d (c : Z) : Packet4d := repeat c 4.
Definition pmul (a b : Packet8f) : Packet8f := lanes2 mulss a b.
Definition padd (a b : Packet8f) : Packet8f := lanes2 addss a b.
Definition psub (a b : Packet8f) : Packet8f := lanes2 subss a b.
Definition pmadd (cfg : BuildConfig) (a b c : Packet8f) : Packet8f :=
  lanes3 (maddss cfg) a b c.

(** [std::numeric_limits<float>::min()], the smallest normal float. *)
Definition numeric_limits_float_min : Z := 0x00800000.

(* ================================================================== *)
(** ** The kernels *)

Definition pshiftleft (cfg : BuildConfig) (v : Packet8i) (n : Z) : Packet8i :=
  if EIGEN_VECTORIZE_AVX2 cfg then _mm256_slli_epi32 v n
  else
    let lo := _mm_slli_epi32 (_mm256_extractf128_si256 v 0) n in
    let hi := _mm_slli_epi32 (_mm256_extractf128_si256 v 1) n in
    _mm256_insertf128_si256 (_mm256_castsi128_si256 lo) hi 1.

(** The float literals of [psin], as the binary32 patterns they round to. *)
Definition f_one : Z := 0x3F800000.              (* 1.0f *)
Definition f_two : Z := 0x40000000.              (* 2.0f *)
Definition f_one_over_four : Z := 0x3E800000.    (* 0.25f *)
Definition f_one_over_pi : Z := 0x3EA2F983.      (* 3.183098861837907e-01f *)
Definition f_neg_pi_first : Z := 0xC0490000.     (* -3.140625000000000e+00f *)
Definition f_neg_pi_second : Z := 0xBA7D8000.    (* -9.670257568359375e-04f *)
Definition f_neg_pi_third : Z := 0xB528885A.     (* -6.278329571784980e-07f *)
Definition f_four_over_pi : Z := 0x3FA2F983.     (* 1.273239544735163e+00f *)
Definition f_coeff_right_0 : Z := 0x3F800000.    (* 9.999999724233232e-01f *)
Definition f_coeff_right_2 : Z := 0xBE9DE9C9.    (* -3.084242535619928e-01f *)
Definition f_coeff_right_4 : Z := 0x3C81D7AE.    (* 1.584991525700324e-02f *)
Definition f_coeff_right_6 : Z := 0xB9A72F6B.    (* -3.188805084631342e-04f *)
Definition f_coeff_left_1 : Z := 0x3F490FDA.     (* 7.853981525427295e-01f *)
Definition f_coeff_left_3 : Z := 0xBDA55DD4.     (* -8.074536727092352e-02f *)
Definition f_coeff_left_5 : Z := 0x3B232D1F.     (* 2.489871967827018e-03f *)
Definition f_coeff_left_7 : Z := 0xB8167AEA.     (* -3.587725841214251e-05f *)
Definition f_half : Z := 0x3F000000.             (* .5f *)
Definition f_one_point_five : Z := 0x3FC00000.   (* 1.5f *)
Definition f_minus_half : Z := 0xBF000000.       (* -0.5f *)
Definition d_one : Z := 0x3FF0000000000000.      (* 1.0 *)

(** The local variables of [psin] that the properties speak about, with the
    value each has when the function returns; [left] and [right] are kept
    as they are before the interval mask is applied, [res] before the sign
    flip. *)
Record psin_locals := {
  sin_shift : Packet8f;
  sin_x : Packet8f;
  sin_z : Packet8f;
  sin_shift_ints : Packet8i;
  sin_sign_flip_mask : Packet8i;
  sin_ival_mask : Packet8f;
  sin_right : Packet8f;
  sin_left : Packet8f;
  sin_res : Packet8f;
  sin_return : Packet8f
}.

Definition psin_body (cfg : BuildConfig) (_x : Packet8f) : psin_locals :=
  let x := _x in
  let p8i_one := pset1 1 in
  let p8f_one := pset1 f_one in
  let p8f_two := pset1 f_two in
  let p8f_one_over_four := pset1 f_one_over_four in
  let p8f_one_over_pi := pset1 f_one_over_pi in
  let p8f_neg_pi_first := pset1 f_neg_pi_first in
  let p8f_neg_pi_second := pset1 f_neg_pi_second in
  let p8f_neg_pi_third := pset1 f_neg_pi_third in
  let p8f_four_over_pi := pset1 f_four_over_pi in
  let z := pmul x p8f_one_over_pi in
  let shift := _mm256_floor_ps (padd z p8f_one_over_four) in
  let x := pmadd cfg shift p8f_neg_pi_first x in
  let x := pmadd cfg shift p8f_neg_pi_second x in
  let x := pmadd cfg shift p8f_neg_pi_third x in
  let z := pmul x p8f_four_over_pi in
  let shift_ints := _mm256_cvtps_epi32 shift in
  let shift_isodd :=
    _mm256_castps_si256
      (_mm256_and_ps (_mm256_castsi256_ps shift_ints)
                     (_mm256_castsi256_ps p8i_one)) in
  let sign_flip_mask := pshiftleft cfg shift_isodd 31 in
  let ival_mask := _mm256_cmp_ps z p8f_one _CMP_GT_OQ in
  let p8f_coeff_right_0 := pset1 f_coeff_right_0 in
  let p8f_coeff_right_2 := pset1 f_coeff_right_2 in
  let p8f_coeff_right_4 := pset1 f_coeff_right_4 in
  let p8f_coeff_right_6 := pset1 f_coeff_right_6 in
  let z_minus_two := psub z p8f_two in
  let z_minus_two2 := pmul z_minus_two z_minus_two in
  let right := pmadd cfg p8f_coeff_right_6 z_minus_two2 p8f_coeff_right_4 in
  let right := pmadd cfg right z_minus_two2 p8f_coeff_right_2 in
  let right := pmadd cfg right z_minus_two2 p8f_coeff_right_0 in
  let p8f_coeff_left_1 := pset1 f_coeff_left_1 in
  let p8f_coeff_left_3 := pset1 f_coeff_left_3 in
  let p8f_coeff_left_5 := pset1 f_coeff_left_5 in
  let p8f_coeff_left_7 := pset1 f_coeff_left_7 in
  let z2 := pmul z z in
  let left := pmadd cfg p8f_coeff_left_7 z2 p8f_coeff_left_5 in
  let left := pmadd cfg left z2 p8f_coeff_left_3 in
  let left := pmadd cfg left z2 p8f_coeff_left_1 in
  let left := pmul left z in
  let left_sel := _mm256_andnot_ps ival_mask left in
  let right_sel := _mm256_and_ps ival_mask right in
  let res := _mm256_or_ps left_sel right_sel in
  let ret := _mm256_xor_ps res (_mm256_castsi256_ps sign_flip_mask) in
  {| sin_shift := shift; sin_x := x; sin_z := z;
     sin_shift_ints := shift_ints; sin_sign_flip_mask := sign_flip_mask;
     sin_ival_mask := ival_mask; sin_right := right; sin_left := left;
     sin_res := res; sin_return := ret |}.

Definition psin (cfg : BuildConfig) (_x : Packet8f) : Packet8f :=
  sin_return (psin_body cfg _x).

Section Kernels.
(** One lane of [_mm256_rsqrt_ps]: the hardware estimate of the reciprocal
    square root. *)
Variable rsqrtss : Z -> Z.
(** The collaborating kernels the file delegates to. *)
Variables plog_float pexp_float generic_fast_tanh_float : Packet8f -> Packet8f.
Variable pexp_double : Packet4d -> Packet4d.

Definition _mm256_rsqrt_ps (a : Packet8f) : Packet8f := map rsqrtss a.

Definition plog (_x : Packet8f) : Packet8f := plog_float _x.
Definition pexp (_x : Packet8f) : Packet8f := pexp_float _x.
Definition ptanh (x : Packet8f) : Packet8f := generic_fast_tanh_float x.
Definition pexp_Packet4d (x : Packet4d) : Packet4d := pexp_double x.

(** [psqrt<Packet8f>] under [#if EIGEN_FAST_MATH]. *)
Definition psqrt_fast (_x : Packet8f) : Packet8f :=
  let half := pmul _x (pset1 f_half) in
  let denormal_mask :=
    _mm256_and_ps
      (_mm256_cmp_ps _x (pset1 numeric_limits_float_min) _CMP_LT_OQ)
      (_mm256_cmp_ps _x _mm256_setzero_ps _CMP_GE_OQ) in
  let x := _mm256_rsqrt_ps _x in
  let x := pmul x (psub (pset1 f_one_point_five) (pmul half (pmul x x))) in
  _mm256_andnot_ps denormal_mask (pmul _x x).

(** [psqrt<Packet8f>] under [#else]. *)
Definition psqrt_exact (x : Packet8f) : Packet8f := _mm256_sqrt_ps x.

Definition psqrt (cfg : BuildConfig) (x : Packet8f) : Packet8f :=
  if EIGEN_FAST_MATH cfg then psqrt_fast x else psqrt_exact x.

Definition psqrt_Packet4d (x : Packet4d) : Packet4d := _mm256_sqrt_pd x.

(** The locals of the fast [prsqrt<Packet8f>]: [rsqrt_x] is the refined
    estimate the function ORs with [rsqrt_infs_and_nans]. *)
Record prsqrt_locals := {
  rsqrt_le_zero_mask : Packet8f;
  rsqrt_neg_mask : Packet8f;
  rsqrt_zero_mask : Packet8f;
  rsqrt_infs_and_nans : Packet8f;
  rsqrt_x : Packet8f;
  rsqrt_return : Packet8f
}.

Definition prsqrt_fast_body (cfg : BuildConfig) (_x : Packet8f) : prsqrt_locals :=
  let p8f_inf := _mm256_castsi256_ps (pset1 0x7f800000) in
  let p8f_nan := _mm256_castsi256_ps (pset1 0x7fc00000) in
  let p8f_one_point_five := pset1 f_one_point_five in
  let p8f_minus_half := pset1 f_minus_half in
  let p8f_flt_min := _mm256_castsi256_ps (pset1 0x00800000) in
  let neg_half := pmul _x p8f_minus_half in
  let le_zero_mask := _mm256_cmp_ps _x p8f_flt_min _CMP_LT_OQ in
  let x := _mm256_andnot_ps le_zero_mask (_mm256_rsqrt_ps _x) in
  let neg_mask := _mm256_cmp_ps _x _mm256_setzero_ps _CMP_LT_OQ in
  let zero_mask := _mm256_andnot_ps neg_mask le_zero_mask in
  let infs_and_nans :=
    _mm256_or_ps (_mm256_and_ps neg_mask p8f_nan)
                 (_mm256_and_ps zero_mask p8f_inf) in
  let x := pmul x (pmadd cfg neg_half (pmul x x) p8f_one_point_five) in
  {| rsqrt_le_zero_mask := le_zero_mask; rsqrt_neg_mask := neg_mask;
     rsqrt_zero_mask := zero_mask; rsqrt_infs_and_nans := infs_and_nans;
     rsqrt_x := x; rsqrt_return := _mm256_or_ps x infs_and_nans |}.

Definition prsqrt_fast (cfg : BuildConfig) (_x : Packet8f) : Packet8f :=
  rsqrt_return (prsqrt_fast_body cfg _x).

(** [prsqrt<Packet8f>] under [#else]. *)
Definition prsqrt_exact (x : Packet8f) : Packet8f :=
  let p8f_one := pset1 f_one in
  _mm256_div_ps p8f_one (_mm256_sqrt_ps x).

Definition prsqrt (cfg : BuildConfig) (x : Packet8f) : Packet8f :=
  if EIGEN_FAST_MATH cfg then prsqrt_fast cfg x else prsqrt_exact x.

Definition prsqrt_Packet4d (x : Packet4d) : Packet4d :=
  let p4d_one := pset1_4d d_one in
  _mm256_div_pd p4d_one (_mm256_sqrt_pd x).

(** The translation unit: the specializations one build of the file
    defines. *)
Record MathFunctions := {
  mf_psin : Packet8f -> Packet8f;
  mf_plog : Packet8f -> Packet8f;
  mf_pexp : Packet8f -> Packet8f;
  mf_ptanh : Packet8f -> Packet8f;
  mf_pexp_4d : Packet4d -> Packet4d;
  mf_psqrt : Packet8f -> Packet8f;
  mf_psqrt_4d : Packet4d -> Packet4d;
  mf_prsqrt : Packet8f -> Packet8f;
  mf_prsqrt_4d : Packet4d -> Packet4d
}.

Definition build (cfg : BuildConfig) : MathFunctions :=
  {| mf_psin := psin cfg;
     mf_plog := plog;
     mf_pexp := pexp;
     mf_ptanh := ptanh;
     mf_pexp_4d := pexp_Packet4d;
     mf_psqrt := psqrt cfg;
     mf_psqrt_4d := psqrt_Packet4d;
     mf_prsqrt := prsqrt cfg;
     mf_prsqrt_4d := prsqrt_Packet4d |}.
End Kernels.

(** A reference estimate: the special cases the instruction set documents
    for [rsqrtps] (a negative input gives the indefinite NaN, a zero or
    denormal input the infinity of its sign, plus infinity gives zero) and
    the correctly rounded quotient elsewhere. *)
Definition rsqrtss_reference (a : Z) : Z :=
  if is_nan 24 8 a then quiet 24 a
  else if exp_field 24 8 a =? 0 then pack 24 8 (sign_bit 24 8 a) 0xFF 0
  else if sign_bit 24 8 a then indefinite 24 8
  else divss f_one (sqrtss a).

(* ================================================================== *)
(** ** The words of the specification, lane by lane *)

(** Range reduction of the sine: [shift = floor(x * (1/pi) + 0.25)], then
    [shift * pi] is taken from [x] in three multiply-adds. *)
Definition sin_shift_of (x : Z) : Z :=
  roundss_floor (addss (mulss x f_one_over_pi) f_one_over_four).

Definition sin_reduced_x (cfg : BuildConfig) (x : Z) : Z :=
  let shift := sin_shift_of x in
  let x1 := maddss cfg shift f_neg_pi_first x in
  let x2 := maddss cfg shift f_neg_pi_second x1 in
  maddss cfg shift f_neg_pi_third x2.

Definition sin_reduced_z (cfg : BuildConfig) (x : Z) : Z :=
  mulss (sin_reduced_x cfg x) f_four_over_pi.

(** The even polynomial in [(z-2)^2] and the odd polynomial in [z], each a
    Horner chain of three multiply-adds over four coefficients. *)
Definition sin_poly_right (cfg : BuildConfig) (z : Z) : Z :=
  let w := mulss (subss z f_two) (subss z f_two) in
  maddss cfg
    (maddss cfg (maddss cfg f_coeff_right_6 w f_coeff_right_4) w f_coeff_right_2)
    w f_coeff_right_0.

Definition sin_poly_left (cfg : BuildConfig) (z : Z) : Z :=
  let w := mulss z z in
  mulss
    (maddss cfg
       (maddss cfg (maddss cfg f_coeff_left_7 w f_coeff_left_5) w f_coeff_left_3)
       w f_coeff_left_1)
    z.

(** The same reduction and polynomials with every multiply-add fused, as the
    specification words them ("three successive fused multiply-adds",
    "Horner/FMA"): what [psin] computes in a build that has FMA. *)
Definition sin_reduced_x_fused (x : Z) : Z :=
  let shift := sin_shift_of x in
  let x1 := vfmaddss shift f_neg_pi_first x in
  let x2 := vfmaddss shift f_neg_pi_second x1 in
  vfmaddss shift f_neg_pi_third x2.

Definition sin_poly_right_fused (z : Z) : Z :=
  let w := mulss (subss z f_two) (subss z f_two) in
  vfmaddss
    (vfmaddss (vfmaddss f_coeff_right_6 w f_coeff_right_4) w f_coeff_right_2)
    w f_coeff_right_0.

Definition sin_poly_left_fused (z : Z) : Z :=
  let w := mulss z z in
  mulss
    (vfmaddss
       (vfmaddss (vfmaddss f_coeff_left_7 w f_coeff_left_5) w f_coeff_left_3)
       w f_coeff_left_1)
    z.

(** One Newton step for the square root: [x1 = x0 * (1.5 - 0.5*input*x0^2)]. *)
Definition sqrt_newton (x0 input : Z) : Z :=
  mulss x0 (subss f_one_point_five (mulss (mulss input f_half) (mulss x0 x0))).

(** One Newton step for the reciprocal square root:
    [x1 = x0 * (1.5 + (-0.5*input) * x0^2)]. *)
Definition rsqrt_newton (cfg : BuildConfig) (x0 input : Z) : Z :=
  mulss x0 (maddss cfg (mulss input f_minus_half) (mulss x0 x0) f_one_point_five).

(** One lane of [prsqrt_fast_body]: the refined estimate and the special
    value that the function ORs together, for the estimate [x0] of [v]. *)
Definition prsqrt_lane_code (cfg : BuildConfig) (x0 v : Z) : Z * Z :=
  let le_zero_mask := cmpss v 0x00800000 _CMP_LT_OQ in
  let x := Z.land (Z.lnot le_zero_mask) x0 in
  let neg_mask := cmpss v 0 _CMP_LT_OQ in
  let zero_mask := Z.land (Z.lnot neg_mask) le_zero_mask in
  let infs_and_nans :=
    Z.lor (Z.land neg_mask 0x7fc00000) (Z.land zero_mask 0x7f800000) in
  (mulss x (maddss cfg (mulss v f_minus_half) (mulss x x) f_one_point_five),
   infs_and_nans).

(** The values that are zero or finite, with the exponent of a binary32. *)
Definition finite_or_zero (f : spec_float) : Prop :=
  match f with
  | S754_zero _ => True
  | S754_finite _ _ e => -149 <= e <= 104
  | _ => False
  end.

(** A pattern that decodes to a zero or to a finite number. *)
Definition finite_pattern (b : Z) : Prop :=
  match decode 24 8 b with
  | S754_zero _ | S754_finite _ _ _ => True
  | _ => False
  end.

(** The value of a pattern is an odd integer. *)
Definition odd_integer (b : Z) : bool :=
  match decode 24 8 b with
  | S754_finite _ m e =>
      if 0 <=? e then (e =? 0) && Z.odd (Z.pos m)
      else (Z.pos m mod 2 ^ (- e) =? 0) && Z.odd (Z.pos m / 2 ^ (- e))
  | _ => false
  end.

(** The value of a pattern is an integer, or the pattern is a zero, an
    infinity or a NaN. *)
Definition integral_value (b : Z) : Prop :=
  match decode 24 8 b with
  | S754_finite _ m e => 0 <= e \/ Z.pos m mod 2 ^ (- e) = 0
  | _ => True
  end.

(** Builds with and without the fast paths, FMA and AVX2. *)
Definition cfg_fast : BuildConfig :=
  {| EIGEN_FAST_MATH := true; EIGEN_VECTORIZE_AVX2 := true; FMA := true |}.
Definition cfg_fast_plain : BuildConfig :=
  {| EIGEN_FAST_MATH := true; EIGEN_VECTORIZE_AVX2 := false; FMA := false |}.
Definition cfg_exact : BuildConfig :=
  {| EIGEN_FAST_MATH := false; EIGEN_VECTORIZE_AVX2 := false; FMA := false |}.

(** Sample packets: 4, 1, 0, -1, -inf, +inf, -0 and the smallest denormal;
    0, -0, pi/2, pi, 3pi/2, 1, -1 and 1000; 4, 1, 0 and -1 in double
    precision. *)
Definition sample_roots : Packet8f :=
  [0x40800000; 0x3F800000; 0; 0xBF800000; 0xFF800000; 0x7F800000; 0x80000000; 1].
Definition sample_angles : Packet8f :=
  [0; 0x80000000; 0x3FC90FDB; 0x40490FDB; 0x4096CBE4; 0x3F800000; 0xBF800000; 0x447A0000].
Definition sample_doubles : Packet4d :=
  [0x4010000000000000; 0x3FF0000000000000; 0; 0xBFF0000000000000].

(** One lane of [psin], of [psqrt] and of [prsqrt]: what the packet
    functions compute in lane [i] from lane [i] of their argument. *)
Definition psin_lane (cfg : BuildConfig) (v : Z) : Z :=
  let z := sin_reduced_z cfg v in
  let mask := cmpss z f_one _CMP_GT_OQ in
  Z.lxor
    (Z.lor (Z.land (Z.lnot mask) (sin_poly_left cfg z))
           (Z.land mask (sin_poly_right cfg z)))
    (slli32 31 (Z.land (cvtss2si (sin_shift_of v)) 1)).

Definition psqrt_lane (rsqrtss : Z -> Z) (cfg : BuildConfig) (v : Z) : Z :=
  if EIGEN_FAST_MATH cfg then
    Z.land
      (Z.lnot (Z.land (cmpss v numeric_limits_float_min _CMP_LT_OQ)
                      (cmpss v 0 _CMP_GE_OQ)))
      (mulss v (sqrt_newton (rsqrtss v) v))
  else sqrtss v.

Definition prsqrt_lane (rsqrtss : Z -> Z) (cfg : BuildConfig) (v : Z) : Z :=
  if EIGEN_FAST_MATH cfg then
    Z.lor (fst (prsqrt_lane_code cfg (rsqrtss v) v))
          (snd (prsqrt_lane_code cfg (rsqrtss v) v))
  else divss f_one (sqrtss v).

(** A packet of special values: a quiet NaN, 1, a signalling NaN, a NaN with
    a payload, the two infinities, -1 and the smallest denormal. *)
Definition sample_special : Packet8f :=
  [0x7FC00000; 0x3F800000; 0x7F800001; 0xFFC12345; 0x7F800000; 0xFF800000; 0xBF800000; 1].

(** A packet on which a build without FMA rounds differently from one with
    FMA: 355, 0.6875, 2.625, 4.5, 131072, 0.84375, -355 and 1. *)
Definition sample_plain : Packet8f :=
  [0x43B18000; 0x3F300000; 0x40280000; 0x40900000; 0x48000000; 0x3F580000; 0xC3B18000; 0x3F800000].

(* ================================================================== *)
(** ** Rounding in [SpecFloat] *)

Lemma Zdigits2_nonneg m : 0 <= Zdigits2 m.
Proof. destruct m; simpl; lia. Qed.

Lemma digits2_pos_bounds p :
  2 ^ (Z.pos (digits2_pos p) - 1) <= Z.pos p < 2 ^ Z.pos (digits2_pos p).
Proof.
  induction p as [p IH|p IH|]; cbn [digits2_pos]; [| |simpl; lia].
  - rewrite Pos2Z.inj_succ.
    replace (Z.succ (Z.pos (digits2_pos p)) - 1) with (Z.pos (digits2_pos p)) by lia.
    rewrite Z.pow_succ_r by lia.
    replace (2 ^ Z.pos (digits2_pos p)) with (2 * 2 ^ (Z.pos (digits2_pos p) - 1)) in *
      by (rewrite <- Z.pow_succ_r by lia; f_equal; lia).
    lia.
  - rewrite Pos2Z.inj_succ.
    replace (Z.succ (Z.pos (digits2_pos p)) - 1) with (Z.pos (digits2_pos p)) by lia.
    rewrite Z.pow_succ_r by lia.
    replace (2 ^ Z.pos (digits2_pos p)) with (2 * 2 ^ (Z.pos (digits2_pos p) - 1)) in *
      by (rewrite <- Z.pow_succ_r by lia; f_equal; lia).
    lia.
Qed.

Lemma Zdigits2_bounds m : 0 < m -> 2 ^ (Zdigits2 m - 1) <= m < 2 ^ Zdigits2 m.
Proof.
  destruct m as [|p|p]; try lia. intros _. apply digits2_pos_bounds.
Qed.

Lemma Zdigits2_unique m d : 0 < d -> 2 ^ (d - 1) <= m < 2 ^ d -> Zdigits2 m = d.
Proof.
  intros Hd Hm.
  assert (0 < m) by (pose proof (Z.pow_pos_nonneg 2 (d - 1)); lia).
  pose proof (Zdigits2_bounds m H) as Hb.
  pose proof (Zdigits2_nonneg m).
  destruct (Z.lt_trichotomy (Zdigits2 m) d) as [L|[E|G]]; auto.
  - assert (2 ^ Zdigits2 m <= 2 ^ (d - 1)) by (apply Z.pow_le_mono_r; lia). lia.
  - assert (2 ^ d <= 2 ^ (Zdigits2 m - 1)) by (apply Z.pow_le_mono_r; lia). lia.
Qed.

Lemma Zdigits2_le m n : 0 <= m <= n -> Zdigits2 m <= Zdigits2 n.
Proof.
  intros H. destruct (Z.eq_dec m 0) as [->|]; [apply Zdigits2_nonneg|].
  pose proof (Zdigits2_bounds m ltac:(lia)). pose proof (Zdigits2_bounds n ltac:(lia)).
  destruct (Z_lt_le_dec (Zdigits2 n) (Zdigits2 m)); try lia.
  assert (2 ^ Zdigits2 n <= 2 ^ (Zdigits2 m - 1)) by (apply Z.pow_le_mono_r; lia). lia.
Qed.

Lemma Zdigits2_succ m : 0 <= m -> Zdigits2 (m + 1) <= Zdigits2 m + 1.
Proof.
  intros H. destruct (Z.eq_dec m 0) as [->|]; [simpl; lia|].
  pose proof (Zdigits2_bounds m ltac:(lia)). pose proof (Zdigits2_bounds (m+1) ltac:(lia)).
  pose proof (Zdigits2_nonneg m).
  destruct (Z_lt_le_dec (Zdigits2 m + 1) (Zdigits2 (m+1))); try lia.
  assert (2 ^ (Zdigits2 m + 1) <= 2 ^ (Zdigits2 (m + 1) - 1)) by (apply Z.pow_le_mono_r; lia).
  rewrite Z.pow_add_r in H3 by lia. lia.
Qed.

Lemma Zdigits2_mul_pow2 m k : 0 < m -> 0 <= k -> Zdigits2 (m * 2 ^ k) = Zdigits2 m + k.
Proof.
  intros Hm Hk. pose proof (Zdigits2_bounds m Hm). 
  assert (0 < Zdigits2 m). { destruct m; simpl; lia. }
  apply Zdigits2_unique; [lia|].
  replace (Zdigits2 m + k - 1) with (Zdigits2 m - 1 + k) by lia.
  rewrite !Z.pow_add_r by lia.
  assert (0 < 2 ^ k) by (apply Z.pow_pos_nonneg; lia). nia.
Qed.

(** One step of [shr] halves the mantissa. *)
Lemma shr_1_digits mrs : 0 <= shr_m mrs ->
  0 <= shr_m (shr_1 mrs) /\ Zdigits2 (shr_m (shr_1 mrs)) = Z.max 0 (Zdigits2 (shr_m mrs) - 1).
Proof.
  destruct mrs as [m r s]; cbn [shr_m]. intros H.
  destruct m as [|[p|p|]|p]; cbn [shr_1 shr_m Zdigits2 digits2_pos];
    rewrite ?Pos2Z.inj_succ; lia.
Qed.

Lemma iter_shr_1_digits p : forall mrs, 0 <= shr_m mrs ->
  0 <= shr_m (iter_pos shr_1 p mrs) /\
  Zdigits2 (shr_m (iter_pos shr_1 p mrs)) = Z.max 0 (Zdigits2 (shr_m mrs) - Z.pos p).
Proof.
  induction p as [p IH|p IH|]; intros mrs H; simpl.
  - destruct (shr_1_digits mrs H) as [H1 E1].
    destruct (IH _ H1) as [H2 E2]. destruct (IH _ H2) as [H3 E3].
    split; [assumption|]. rewrite E3, E2, E1. lia.
  - destruct (IH _ H) as [H2 E2]. destruct (IH _ H2) as [H3 E3].
    split; [assumption|]. rewrite E3, E2. lia.
  - apply shr_1_digits; assumption.
Qed.

Lemma shr_spec mrs e n mrs' e' : 0 <= shr_m mrs -> shr mrs e n = (mrs', e') ->
  0 <= shr_m mrs' /\ e' = e + Z.max n 0 /\
  Zdigits2 (shr_m mrs') = Z.max 0 (Zdigits2 (shr_m mrs) - Z.max n 0).
Proof.
  intros H E. pose proof (Zdigits2_nonneg (shr_m mrs)).
  destruct n as [|p|p]; simpl in E; inversion E; subst; clear E.
  - repeat split; try lia.
  - destruct (iter_shr_1_digits p mrs H) as [H1 E1]. repeat split; try lia.
  - repeat split; try lia.
Qed.

Lemma shr_m_of_loc m l : shr_m (shr_record_of_loc m l) = m.
Proof. destruct l as [|[]]; reflexivity. Qed.

Lemma shr_fexp_spec prec emax m e l mrs' e' : 0 <= m ->
  shr_fexp prec emax m e l = (mrs', e') ->
  0 <= shr_m mrs' /\ e' = Z.max e (fexp prec emax (Zdigits2 m + e)) /\
  Zdigits2 (shr_m mrs') + e' = Z.max (Zdigits2 m + e) e'.
Proof.
  unfold shr_fexp. intros H E.
  apply shr_spec in E; rewrite shr_m_of_loc in *; [|assumption].
  destruct E as (H1 & -> & E3). pose proof (Zdigits2_nonneg m). repeat split; lia.
Qed.

Lemma round_nearest_even_bounds m l : 0 <= m -> m <= round_nearest_even m l <= m + 1.
Proof. intros H. destruct l as [|[]]; simpl; try lia. destruct (Z.even m); lia. Qed.

Lemma binary_round_aux_finite sx mx ex lx :
  0 <= mx -> ex <= 104 -> Zdigits2 mx + ex <= 127 ->
  finite_or_zero (binary_round_aux 24 128 sx mx ex lx).
Proof.
  intros H Hex Hd. unfold binary_round_aux.
  destruct (shr_fexp 24 128 mx ex lx) as [mrs' e'] eqn:E1.
  apply shr_fexp_spec in E1; [|assumption]. destruct E1 as (H1 & Ee' & D1).
  pose proof (round_nearest_even_bounds (shr_m mrs') (loc_of_shr_record mrs') H1) as R.
  set (m1 := round_nearest_even (shr_m mrs') (loc_of_shr_record mrs')) in *.
  destruct (shr_fexp 24 128 m1 e' loc_Exact) as [mrs'' e''] eqn:E2.
  apply shr_fexp_spec in E2; [|lia]. destruct E2 as (H2 & Ee'' & D2).
  pose proof (Zdigits2_le m1 (shr_m mrs' + 1) ltac:(lia)).
  pose proof (Zdigits2_succ (shr_m mrs') H1).
  unfold fexp, emin in *.
  destruct (shr_m mrs'') as [|p|p] eqn:Em; cbn [finite_or_zero].
  - exact I.
  - destruct (Z.leb_spec e'' (128 - 24)); cbn [finite_or_zero]; lia.
  - lia.
Qed.

Lemma SFmul_half_finite s m e sh :
  Z.pos m < 2 ^ 24 -> e <= 104 ->
  finite_or_zero (SFmul 24 128 (S754_finite s m e) (S754_finite sh 8388608 (-24))).
Proof.
  intros Hm He. cbn [SFmul]. apply binary_round_aux_finite; [lia|lia|].
  rewrite Pos2Z.inj_mul. change (Z.pos 8388608) with (2 ^ 23).
  rewrite Zdigits2_mul_pow2 by lia.
  assert (Zdigits2 (Z.pos m) <= 24).
  { destruct (Z_lt_le_dec 24 (Zdigits2 (Z.pos m))); [|assumption].
    pose proof (Zdigits2_bounds (Z.pos m) ltac:(lia)).
    assert (2 ^ 24 <= 2 ^ (Zdigits2 (Z.pos m) - 1)) by (apply Z.pow_le_mono_r; lia). lia. }
  lia.
Qed.

(** *** Bit patterns of bounded width *)

Lemma is_u32_spec b : is_u32 b = true <-> 0 <= b < 2 ^ 32.
Proof. unfold is_u32. rewrite andb_true_iff, Z.leb_le, Z.ltb_lt. tauto. Qed.

Lemma range_bits n b :
  0 <= n -> (0 <= b < 2 ^ n <-> forall i, n <= i -> Z.testbit b i = false).
Proof.
  intros Hn. split.
  - intros Hb i Hi. rewrite <- (Z.mod_small b (2 ^ n)) by assumption.
    apply Z.mod_pow2_bits_high. lia.
  - intros H. assert (E : b mod 2 ^ n = b).
    { apply Z.bits_inj'. intros i Hi. destruct (Z_lt_le_dec i n).
      - apply Z.mod_pow2_bits_low. assumption.
      - rewrite Z.mod_pow2_bits_high by lia. symmetry. apply H. assumption. }
    rewrite <- E. apply Z.mod_pos_bound. apply Z.pow_pos_nonneg; lia.
Qed.

Lemma lor_range n a b :
  0 <= n -> 0 <= a < 2 ^ n -> 0 <= b < 2 ^ n -> 0 <= Z.lor a b < 2 ^ n.
Proof.
  intros Hn Ha Hb. rewrite range_bits in * by assumption.
  intros i Hi. rewrite Z.lor_spec, Ha, Hb by assumption. reflexivity.
Qed.

Lemma lxor_range n a b :
  0 <= n -> 0 <= a < 2 ^ n -> 0 <= b < 2 ^ n -> 0 <= Z.lxor a b < 2 ^ n.
Proof.
  intros Hn Ha Hb. rewrite range_bits in * by assumption.
  intros i Hi. rewrite Z.lxor_spec, Ha, Hb by assumption. reflexivity.
Qed.

Lemma land_range_r n a b : 0 <= n -> 0 <= b < 2 ^ n -> 0 <= Z.land a b < 2 ^ n.
Proof.
  intros Hn Hb. rewrite range_bits in * by assumption.
  intros i Hi. rewrite Z.land_spec, Hb by assumption. apply andb_false_r.
Qed.

Lemma land_ones_range n a : 0 <= n -> 0 <= Z.land a (Z.ones n) < 2 ^ n.
Proof.
  intros Hn. rewrite Z.land_ones by assumption.
  apply Z.mod_pos_bound. apply Z.pow_pos_nonneg; lia.
Qed.

Lemma shiftl_range n k a :
  0 <= k -> 0 <= n -> 0 <= a < 2 ^ n -> 0 <= Z.shiftl a k < 2 ^ (n + k).
Proof.
  intros Hk Hn Ha. rewrite Z.shiftl_mul_pow2, Z.pow_add_r by assumption.
  assert (0 < 2 ^ k) by (apply Z.pow_pos_nonneg; lia). nia.
Qed.

(** Clearing with an all-ones mask and keeping with a zero mask. *)
Lemma andnot_ones b : 0 <= b < 2 ^ 32 -> Z.land (Z.lnot 0xFFFFFFFF) b = 0.
Proof.
  intros Hb. apply Z.bits_inj'. intros i Hi. rewrite Z.land_spec, Z.bits_0.
  destruct (Z_lt_le_dec i 32).
  - rewrite Z.lnot_spec by assumption. change 0xFFFFFFFF with (Z.ones 32).
    rewrite Z.ones_spec_low by lia. reflexivity.
  - rewrite (proj1 (range_bits 32 b ltac:(lia)) Hb i) by assumption. apply andb_false_r.
Qed.

Lemma andnot_zero b : Z.land (Z.lnot 0) b = b.
Proof. change (Z.lnot 0) with (-1). apply Z.land_m1_l. Qed.

Lemma land_ones32 b : 0 <= b < 2 ^ 32 -> Z.land 0xFFFFFFFF b = b.
Proof.
  intros Hb. change 0xFFFFFFFF with (Z.ones 32).
  rewrite Z.land_comm, Z.land_ones by lia. apply Z.mod_small. assumption.
Qed.

(** *** Fields of a binary32 pattern *)

Lemma exp_field_range b : 0 <= exp_field 24 8 b < 256.
Proof. unfold exp_field. apply (land_ones_range 8). lia. Qed.

Lemma mant_field_range b : 0 <= mant_field 24 b < 2 ^ 23.
Proof. unfold mant_field. apply (land_ones_range 23). lia. Qed.

Lemma pack_range s e m : 0 <= pack 24 8 s e m < 2 ^ 32.
Proof.
  unfold pack. change (width 24 8 - 1) with 31. change (mant_bits 24) with 23.
  apply lor_range; [lia| |apply lor_range; [lia| |]].
  - destruct s; simpl; lia.
  - pose proof (shiftl_range 8 23 (Z.land e (Z.ones 8)) ltac:(lia) ltac:(lia)
                  (land_ones_range 8 e ltac:(lia))).
    simpl (8 + 23) in *. lia.
  - pose proof (land_ones_range 23 m ltac:(lia)). lia.
Qed.

Lemma pack_exp_field s e m : exp_field 24 8 (pack 24 8 s e m) = Z.land e (Z.ones 8).
Proof.
  unfold exp_field, pack. change (width 24 8 - 1) with 31. change (mant_bits 24) with 23.
  apply Z.bits_inj'. intros i Hi.
  rewrite !Z.land_spec, Z.shiftr_spec, !Z.lor_spec, !Z.shiftl_spec, !Z.land_spec by lia.
  replace (i + 23 - 23) with i by lia.
  destruct (Z_lt_le_dec i 8).
  - rewrite (Z.ones_spec_high 23) by lia.
    rewrite (Z.testbit_neg_r _ (i + 23 - 31)) by lia.
    rewrite andb_false_r. simpl.
    destruct (Z.testbit e i), (Z.testbit (Z.ones 8) i); reflexivity.
  - rewrite (Z.ones_spec_high 8) by lia. rewrite !andb_false_r. reflexivity.
Qed.

Lemma encode_range f : 0 <= encode 24 8 f < 2 ^ 32.
Proof.
  destruct f as [s|s| |s m e]; cbn [encode]; try apply pack_range.
  destruct (Z.pos m <? _); apply pack_range.
Qed.

Lemma quiet_range b : 0 <= b < 2 ^ 32 -> 0 <= quiet 24 b < 2 ^ 32.
Proof. intros H. unfold quiet. apply lor_range; [lia|assumption|]. simpl. lia. Qed.

(** *** Classes of decoded values *)

Lemma lor_hidden_bit_pos m : 0 <= m -> exists p, Z.lor m (Z.shiftl 1 23) = Z.pos p.
Proof.
  intros Hm. destruct (Z.lor m (Z.shiftl 1 23)) as [|p|p] eqn:E.
  - assert (Z.testbit (Z.lor m (Z.shiftl 1 23)) 23 = true).
    { rewrite Z.lor_spec. replace (Z.testbit (Z.shiftl 1 23) 23) with true by reflexivity.
      apply orb_true_r. }
    rewrite E in H. discriminate.
  - eauto.
  - assert (0 <= Z.lor m (Z.shiftl 1 23)) by (apply Z.lor_nonneg; simpl; lia). lia.
Qed.

Lemma decode_nan b : decode 24 8 b = S754_nan <-> is_nan 24 8 b = true.
Proof.
  unfold decode, is_nan. change (mant_bits 24) with 23.
  pose proof (mant_field_range b) as Hm.
  destruct (exp_field 24 8 b =? 0) eqn:E0.
  - apply Z.eqb_eq in E0. rewrite E0.
    replace (0 =? Z.ones 8) with false by reflexivity. rewrite andb_false_l.
    destruct (mant_field 24 b); split; discriminate.
  - destruct (exp_field 24 8 b =? Z.ones 8) eqn:E1.
    + rewrite andb_true_l.
      destruct (mant_field 24 b =? 0); cbv [negb]; split; congruence.
    + destruct (lor_hidden_bit_pos (mant_field 24 b) ltac:(lia)) as [p ->].
      rewrite andb_false_l. split; discriminate.
Qed.

Lemma decode_not_nan b : decode 24 8 b <> S754_nan -> is_nan 24 8 b = false.
Proof.
  intros H. destruct (is_nan 24 8 b) eqn:E; [|reflexivity].
  apply decode_nan in E. contradiction.
Qed.

Lemma decode_finite_bounds b s m e :
  decode 24 8 b = S754_finite s m e -> Z.pos m < 2 ^ 24 /\ -149 <= e <= 104.
Proof.
  unfold decode. change (mant_bits 24) with 23.
  change (fmt_emin 24 8) with (-149). change (Z.ones 8) with 255.
  pose proof (mant_field_range b) as Hm. pose proof (exp_field_range b) as He.
  destruct (Z.eqb_spec (exp_field 24 8 b) 0).
  - destruct (mant_field 24 b) eqn:Em; intros H; inversion H; subst. lia.
  - destruct (Z.eqb_spec (exp_field 24 8 b) 255).
    + destruct (mant_field 24 b =? 0); discriminate.
    + pose proof (lor_range 24 (mant_field 24 b) (Z.shiftl 1 23) ltac:(lia) ltac:(lia)
                    ltac:(simpl; lia)) as Hl.
      destruct (lor_hidden_bit_pos (mant_field 24 b) ltac:(lia)) as [p Ep].
      rewrite Ep in Hl |- *. intros H.
      assert (Em : Z.pos p = Z.pos m)
        by exact (f_equal (fun f => match f with S754_finite _ q _ => Z.pos q | _ => 0 end) H).
      assert (Ee : exp_field 24 8 b + -149 - 1 = e)
        by exact (f_equal (fun f => match f with S754_finite _ _ q => q | _ => 0 end) H).
      lia.
Qed.

Lemma exp_field_finite b : exp_field 24 8 b <> 255 -> finite_pattern b.
Proof.
  unfold finite_pattern, decode. change (mant_bits 24) with 23. change (Z.ones 8) with 255.
  pose proof (mant_field_range b) as Hm. intros H.
  destruct (Z.eqb_spec (exp_field 24 8 b) 0).
  - destruct (mant_field 24 b); exact I.
  - destruct (Z.eqb_spec (exp_field 24 8 b) 255); [contradiction|].
    destruct (lor_hidden_bit_pos (mant_field 24 b) ltac:(lia)) as [p ->]. exact I.
Qed.

Lemma encode_finite_pattern f : finite_or_zero f -> finite_pattern (encode 24 8 f).
Proof.
  intros H. apply exp_field_finite.
  destruct f as [s|s| |s m e]; cbn [finite_or_zero encode] in *; try contradiction.
  - rewrite pack_exp_field. discriminate.
  - destruct (Z.pos m <? _); rewrite pack_exp_field; [discriminate|].
    change (fmt_emin 24 8) with (-149). rewrite Z.land_ones by lia.
    rewrite Z.mod_small; simpl; lia.
Qed.

Lemma finite_pattern_not_nan b : finite_pattern b -> is_nan 24 8 b = false.
Proof.
  intros H. apply decode_not_nan. unfold finite_pattern in H.
  destruct (decode 24 8 b); try contradiction; discriminate.
Qed.

(** *** The lane instructions return 32-bit patterns *)

Lemma lift1_range f a : 0 <= a < 2 ^ 32 -> 0 <= lift1 24 8 f a < 2 ^ 32.
Proof.
  intros Ha. unfold lift1. destruct (is_nan 24 8 a);
    [apply quiet_range; assumption|apply encode_range].
Qed.

Lemma lift2_range f a b :
  0 <= a < 2 ^ 32 -> 0 <= b < 2 ^ 32 -> 0 <= lift2 24 8 f a b < 2 ^ 32.
Proof.
  intros Ha Hb. unfold lift2.
  destruct (is_nan 24 8 a); [apply quiet_range; assumption|].
  destruct (is_nan 24 8 b); [apply quiet_range; assumption|apply encode_range].
Qed.

Lemma lift3_range f a b c :
  0 <= a < 2 ^ 32 -> 0 <= b < 2 ^ 32 -> 0 <= c < 2 ^ 32 ->
  0 <= lift3 24 8 f a b c < 2 ^ 32.
Proof.
  intros Ha Hb Hc. unfold lift3.
  destruct (is_nan 24 8 a); [apply quiet_range; assumption|].
  destruct (is_nan 24 8 b); [apply quiet_range; assumption|].
  destruct (is_nan 24 8 c); [apply quiet_range; assumption|apply encode_range].
Qed.

Lemma mulss_range a b : 0 <= a < 2 ^ 32 -> 0 <= b < 2 ^ 32 -> 0 <= mulss a b < 2 ^ 32.
Proof. apply lift2_range. Qed.
Lemma addss_range a b : 0 <= a < 2 ^ 32 -> 0 <= b < 2 ^ 32 -> 0 <= addss a b < 2 ^ 32.
Proof. apply lift2_range. Qed.
Lemma subss_range a b : 0 <= a < 2 ^ 32 -> 0 <= b < 2 ^ 32 -> 0 <= subss a b < 2 ^ 32.
Proof. apply lift2_range. Qed.
Lemma maddss_range cfg a b c :
  0 <= a < 2 ^ 32 -> 0 <= b < 2 ^ 32 -> 0 <= c < 2 ^ 32 -> 0 <= maddss cfg a b c < 2 ^ 32.
Proof.
  intros Ha Hb Hc. unfold maddss. destruct (FMA cfg).
  - apply lift3_range; assumption.
  - apply addss_range; [apply mulss_range|]; assumption.
Qed.

Lemma const_range c : is_u32 c = true -> 0 <= c < 2 ^ 32.
Proof. apply is_u32_spec. Qed.

(** *** Order of a lane against zero and the smallest normal float *)

Lemma decode_zero : decode 24 8 0 = S754_zero false.
Proof. reflexivity. Qed.

Lemma decode_flt_min :
  decode 24 8 0x00800000 = S754_finite false 8388608 (-149).
Proof. reflexivity. Qed.

Lemma negative_class v :
  lt_oq 24 8 v 0 = true ->
  decode 24 8 v = S754_infinity true \/ exists m e, decode 24 8 v = S754_finite true m e.
Proof.
  unfold lt_oq. rewrite decode_zero.
  destruct (decode 24 8 v) as [s|[]| |[] m e]; cbv [SFltb SFcompare];
    try discriminate; eauto.
Qed.

Lemma negative_below_flt_min v :
  lt_oq 24 8 v 0 = true -> lt_oq 24 8 v 0x00800000 = true.
Proof.
  intros H. destruct (negative_class v H) as [E|(m & e & E)];
    unfold lt_oq; rewrite E, decode_flt_min; reflexivity.
Qed.

Lemma denormal_range_class v :
  lt_oq 24 8 v 0 = false -> lt_oq 24 8 v 0x00800000 = true ->
  ge_oq 24 8 v 0 = true /\
  ((exists s, decode 24 8 v = S754_zero s) \/ exists m e, decode 24 8 v = S754_finite false m e).
Proof.
  unfold lt_oq, ge_oq. rewrite decode_zero, decode_flt_min.
  destruct (decode 24 8 v) as [s|[]| |[] m e]; cbv [SFltb SFleb SFcompare];
    try discriminate; intros _ _; (split; [reflexivity|eauto]).
Qed.

Lemma decode_neg_inf v :
  0 <= v < 2 ^ 32 -> decode 24 8 v = S754_infinity true -> v = 0xFF800000.
Proof.
  intros Hv. unfold decode. change (mant_bits 24) with 23. change (Z.ones 8) with 255.
  pose proof (mant_field_range v) as Hm.
  destruct (Z.eqb_spec (exp_field 24 8 v) 0); [destruct (mant_field 24 v); discriminate|].
  destruct (Z.eqb_spec (exp_field 24 8 v) 255) as [Ee|];
    [|destruct (lor_hidden_bit_pos (mant_field 24 v) ltac:(lia)) as [p ->]; discriminate].
  destruct (Z.eqb_spec (mant_field 24 v) 0) as [Em|]; [|discriminate].
  intros H. assert (Es : sign_bit 24 8 v = true) by congruence. clear H.
  unfold exp_field, mant_field, sign_bit in *.
  change (mant_bits 24) with 23 in *. change (width 24 8 - 1) with 31 in *.
  rewrite Z.land_ones in Ee, Em by lia. rewrite Z.shiftr_div_pow2 in Ee by lia.
  rewrite Z.testbit_true in Es by lia.
  pose proof (Z.div_mod v (2 ^ 23) ltac:(lia)).
  pose proof (Z.div_mod (v / 2 ^ 23) (2 ^ 8) ltac:(lia)).
  pose proof (Z.div_div v (2 ^ 23) (2 ^ 8) ltac:(lia) ltac:(lia)) as Hdd.
  change (2 ^ 23 * 2 ^ 8) with (2 ^ 31) in Hdd.
  assert (0 <= v / 2 ^ 31 < 2).
  { split; [apply Z.div_pos; lia|apply Z.div_lt_upper_bound; lia]. }
  assert (v / 2 ^ 31 = 1).
  { destruct (Z.eq_dec (v / 2 ^ 31) 0) as [E0|]; [rewrite E0 in Es; discriminate|lia]. }
  lia.
Qed.

Lemma wf_Packet8f_inv x :
  wf_Packet8f x = true ->
  exists a0 a1 a2 a3 a4 a5 a6 a7,
    x = [a0; a1; a2; a3; a4; a5; a6; a7] /\
    (0 <= a0 < 2 ^ 32 /\ 0 <= a1 < 2 ^ 32 /\ 0 <= a2 < 2 ^ 32 /\ 0 <= a3 < 2 ^ 32) /\
    (0 <= a4 < 2 ^ 32 /\ 0 <= a5 < 2 ^ 32 /\ 0 <= a6 < 2 ^ 32 /\ 0 <= a7 < 2 ^ 32).
Proof.
  unfold wf_Packet8f. rewrite andb_true_iff, Nat.eqb_eq. intros [L F].
  do 8 (destruct x as [|? x]; [discriminate L|]). destruct x; [|discriminate L].
  do 8 eexists. split; [reflexivity|].
  cbn [forallb] in F. rewrite !andb_true_iff, !is_u32_spec in F. tauto.
Qed.

Lemma lane_cases (Q : nat -> Prop) :
  Q 0%nat -> Q 1%nat -> Q 2%nat -> Q 3%nat -> Q 4%nat -> Q 5%nat -> Q 6%nat -> Q 7%nat ->
  forall i, (i < 8)%nat -> Q i.
Proof.
  intros H0 H1 H2 H3 H4 H5 H6 H7 i Hi.
  do 8 (destruct i as [|i]; [assumption|]). lia.
Qed.

Ltac packet_cbv :=
  cbv [lane nth lanes2 lanes3 map repeat firstn skipn app
       pset1 pmul padd psub pmadd
       _mm256_cmp_ps _mm256_and_ps _mm256_andnot_ps _mm256_or_ps _mm256_xor_ps
       _mm256_setzero_ps _mm256_floor_ps _mm256_cvtps_epi32 _mm256_sqrt_ps
       _mm256_div_ps _mm256_castps_si256 _mm256_castsi256_ps _mm256_rsqrt_ps
       _mm256_slli_epi32 _mm_slli_epi32 _mm256_extractf128_si256
       _mm256_castsi128_si256 _mm256_insertf128_si256].

(** *** The Newton step on a zeroed estimate *)

Lemma finite_pattern_cases h :
  finite_pattern h ->
  is_nan 24 8 h = false /\
  ((exists s, decode 24 8 h = S754_zero s) \/ exists s m e, decode 24 8 h = S754_finite s m e).
Proof.
  intros H. split; [apply finite_pattern_not_nan; assumption|].
  unfold finite_pattern in H. destruct (decode 24 8 h); try contradiction; eauto.
Qed.

Lemma maddss_finite_zero cfg h :
  finite_pattern h -> maddss cfg h 0 f_one_point_five = f_one_point_five.
Proof.
  intros H. destruct (finite_pattern_cases h H) as [Hn Hc].
  unfold maddss. destruct (FMA cfg).
  - unfold vfmaddss, lift3. rewrite Hn.
    destruct Hc as [[s ->]|(s & m & e & ->)]; destruct s; vm_compute; reflexivity.
  - assert (E : mulss h 0 = 0 \/ mulss h 0 = 0x80000000).
    { unfold mulss, lift2. rewrite Hn.
      destruct Hc as [[s ->]|(s & m & e & ->)]; destruct s; vm_compute;
        ((left; reflexivity) || (right; reflexivity)). }
    destruct E as [-> | ->]; vm_compute; reflexivity.
Qed.

Lemma newton_zero_estimate cfg h :
  finite_pattern h -> mulss 0 (maddss cfg h (mulss 0 0) f_one_point_five) = 0.
Proof.
  intros H. replace (mulss 0 0) with 0 by (vm_compute; reflexivity).
  rewrite maddss_finite_zero by assumption. vm_compute; reflexivity.
Qed.

Lemma neg_half_finite v :
  (exists s, decode 24 8 v = S754_zero s) \/
  (exists s m e, decode 24 8 v = S754_finite s m e) ->
  finite_pattern (mulss v f_minus_half).
Proof.
  intros Hc. assert (Hn : is_nan 24 8 v = false).
  { apply decode_not_nan. destruct Hc as [[s E]|(s & m & e & E)]; rewrite E; discriminate. }
  unfold mulss, lift2. rewrite Hn.
  replace (is_nan 24 8 f_minus_half) with false by (vm_compute; reflexivity).
  replace (decode 24 8 f_minus_half) with (S754_finite true 8388608 (-24))
    by (vm_compute; reflexivity). apply encode_finite_pattern.
  destruct Hc as [[s E]|(s & m & e & E)]; rewrite E.
  - exact I.
  - destruct (decode_finite_bounds v s m e E). apply SFmul_half_finite; lia.
Qed.

Lemma neg_half_neg_inf : mulss 0xFF800000 f_minus_half = 0x7F800000.
Proof. vm_compute; reflexivity. Qed.

Lemma newton_zero_estimate_inf cfg :
  mulss 0 (maddss cfg 0x7F800000 (mulss 0 0) f_one_point_five) = 0xFFC00000.
Proof. unfold maddss. destruct (FMA cfg); vm_compute; reflexivity. Qed.

(** *** Lanes of the fast reciprocal square root *)

(** The refinement of the spec: [x1 = x0 * (1.5 + (-0.5 * input) * x0^2)]. *)
Lemma prsqrt_lane_negative cfg x0 v :
  0 <= x0 < 2 ^ 32 -> 0 <= v < 2 ^ 32 -> lt_oq 24 8 v 0 = true ->
  prsqrt_lane_code cfg x0 v =
    (if v =? 0xFF800000 then 0xFFC00000 else 0, 0x7fc00000).
Proof.
  intros Hx Hv Hneg. unfold prsqrt_lane_code, cmpss.
  rewrite (negative_below_flt_min v Hneg), Hneg. cbv zeta.
  rewrite (andnot_ones x0 Hx).
  f_equal.
  destruct (Z.eqb_spec v 0xFF800000) as [->|Hne].
  - apply newton_zero_estimate_inf.
  - apply newton_zero_estimate, neg_half_finite.
    destruct (negative_class v Hneg) as [E|(m & e & E)]; [|eauto].
    apply decode_neg_inf in E; [contradiction|assumption].
Qed.

Lemma prsqrt_lane_denormal cfg x0 v :
  0 <= x0 < 2 ^ 32 ->
  lt_oq 24 8 v 0 = false -> lt_oq 24 8 v 0x00800000 = true ->
  prsqrt_lane_code cfg x0 v = (0, 0x7f800000).
Proof.
  intros Hx Hneg Hlt. unfold prsqrt_lane_code, cmpss.
  rewrite Hneg, Hlt. cbv zeta.
  rewrite (andnot_ones x0 Hx). f_equal.
  apply newton_zero_estimate, neg_half_finite.
  destruct (denormal_range_class v Hneg Hlt) as [_ [[s E]|(m & e & E)]]; eauto.
Qed.

Lemma prsqrt_lane_other cfg x0 v :
  lt_oq 24 8 v 0x00800000 = false ->
  prsqrt_lane_code cfg x0 v = (rsqrt_newton cfg x0 v, 0).
Proof.
  intros Hlt. assert (Hneg : lt_oq 24 8 v 0 = false).
  { destruct (lt_oq 24 8 v 0) eqn:E; [|reflexivity].
    rewrite (negative_below_flt_min v E) in Hlt. discriminate. }
  unfold prsqrt_lane_code, cmpss.
  rewrite Hlt, Hneg. cbv zeta. rewrite andnot_zero. reflexivity.
Qed.

Lemma roundss_floor_range a : 0 <= a < 2 ^ 32 -> 0 <= roundss_floor a < 2 ^ 32.
Proof. apply lift1_range. Qed.

Lemma cvtss2si_range a : 0 <= cvtss2si a < 2 ^ 32.
Proof.
  unfold cvtss2si, to_int_pattern.
  destruct (decode 24 8 a) as [s|s| |s m e];
    [lia|cbv; split; [discriminate|reflexivity]|cbv; split; [discriminate|reflexivity]|].
  destruct (_ && _); [apply Z.mod_pos_bound; lia|cbv; split; [discriminate|reflexivity]].
Qed.

Lemma cmpss_cases a b p : cmpss a b p = 0xFFFFFFFF \/ cmpss a b p = 0.
Proof. unfold cmpss. destruct p; match goal with |- context [if ?c then _ else _] => destruct c end;
    ((left; reflexivity) || (right; reflexivity)). Qed.

Ltac u32 :=
  repeat match goal with
    | |- 0 <= mulss _ _ < _ => apply mulss_range
    | |- 0 <= addss _ _ < _ => apply addss_range
    | |- 0 <= subss _ _ < _ => apply subss_range
    | |- 0 <= maddss _ _ _ _ < _ => apply maddss_range
    | |- 0 <= roundss_floor _ < _ => apply roundss_floor_range
    | |- 0 <= cvtss2si _ < _ => apply cvtss2si_range
    | |- 0 <= _ < _ => first [assumption | apply const_range; vm_compute; reflexivity]
    end.

(** Selection by a comparison mask. *)
Lemma mask_select (c : bool) l r :
  0 <= l < 2 ^ 32 -> 0 <= r < 2 ^ 32 ->
  let m := if c then 0xFFFFFFFF else 0 in
  Z.lor (Z.land (Z.lnot m) l) (Z.land m r) = if c then r else l.
Proof.
  intros Hl Hr. destruct c; cbv zeta.
  - rewrite (andnot_ones l Hl), (land_ones32 r Hr). reflexivity.
  - rewrite andnot_zero, Z.land_0_l, Z.lor_0_r. reflexivity.
Qed.

Lemma pshiftleft_lanes cfg v n :
  length v = 8%nat -> pshiftleft cfg v n = map (slli32 n) v.
Proof.
  intros L. do 8 (destruct v as [|? v]; [discriminate L|]). destruct v; [|discriminate L].
  unfold pshiftleft. destruct (EIGEN_VECTORIZE_AVX2 cfg); reflexivity.
Qed.

(* ================================================================== *)
(** ** The square root kernels *)

Lemma rsqrtss_reference_range a : is_u32 a = true -> is_u32 (rsqrtss_reference a) = true.
Proof.
  rewrite !is_u32_spec. intros Ha. unfold rsqrtss_reference.
  destruct (is_nan 24 8 a); [apply quiet_range; assumption|].
  destruct (_ =? 0); [apply pack_range|].
  destruct (sign_bit 24 8 a); [cbv; split; [discriminate|reflexivity]|].
  apply lift2_range; [cbv; split; [discriminate|reflexivity]|apply lift1_range; assumption].
Qed.

Section RootKernels.
Variable rsqrtss : Z -> Z.
Hypothesis rsqrtss_range : forall a, is_u32 a = true -> is_u32 (rsqrtss a) = true.

Lemma rsqrtss_u32 a : 0 <= a < 2 ^ 32 -> 0 <= rsqrtss a < 2 ^ 32.
Proof. rewrite <- !is_u32_spec. apply rsqrtss_range. Qed.

Lemma prsqrt_fast_body_lane cfg x i :
  wf_Packet8f x = true -> (i < 8)%nat ->
  let t := prsqrt_fast_body rsqrtss cfg x in
  (lane i (rsqrt_x t), lane i (rsqrt_infs_and_nans t)) =
    prsqrt_lane_code cfg (rsqrtss (lane i x)) (lane i x) /\
  lane i (rsqrt_return t) =
    Z.lor (lane i (rsqrt_x t)) (lane i (rsqrt_infs_and_nans t)) /\
  0 <= lane i x < 2 ^ 32.
Proof.
  intros Hwf Hi.
  destruct (wf_Packet8f_inv x Hwf)
    as (a0 & a1 & a2 & a3 & a4 & a5 & a6 & a7 & -> & (R0 & R1 & R2 & R3) & (R4 & R5 & R6 & R7)).
  revert i Hi. apply lane_cases; (split; [reflexivity|split; [reflexivity|assumption]]).
Qed.

(** Claim C1, as amended.  The fast reciprocal square root, lane by lane.
    The lane returned is the bitwise OR of the refined estimate and of the
    special value.  A lane whose input is finite and below zero holds the
    quiet NaN 0x7fc00000, a lane with 0 <= input < minimum normal (zeros
    and denormals) holds plus infinity 0x7f800000: the estimate is cleared
    there before the Newton step, which then gives zero, and the special
    value is the only operand of the OR that is not zero.  Every other lane
    holds the Newton-refined hardware estimate and its special value is
    zero.  In a lane that holds minus infinity the Newton step on the
    cleared estimate multiplies an infinity by zero: the default NaN that
    results is ORed with 0x7fc00000 and the lane holds the NaN 0xffc00000. *)
Theorem prsqrt_fast_lanes cfg x i :
  EIGEN_FAST_MATH cfg = true -> wf_Packet8f x = true -> (i < 8)%nat ->
  let t := prsqrt_fast_body rsqrtss cfg x in
  let v := lane i x in
  let r := lane i (prsqrt rsqrtss cfg x) in
  r = Z.lor (lane i (rsqrt_x t)) (lane i (rsqrt_infs_and_nans t)) /\
  (lt_oq 24 8 v 0 = true -> v <> 0xFF800000 ->
     lane i (rsqrt_x t) = 0 /\ lane i (rsqrt_infs_and_nans t) = 0x7fc00000 /\
     r = 0x7fc00000) /\
  (v = 0xFF800000 ->
     lane i (rsqrt_x t) = 0xFFC00000 /\ lane i (rsqrt_infs_and_nans t) = 0x7fc00000 /\
     r = 0xFFC00000) /\
  (ge_oq 24 8 v 0 = true -> lt_oq 24 8 v 0x00800000 = true ->
     lane i (rsqrt_x t) = 0 /\ lane i (rsqrt_infs_and_nans t) = 0x7f800000 /\
     r = 0x7f800000) /\
  (lt_oq 24 8 v 0 = false ->
   ge_oq 24 8 v 0 && lt_oq 24 8 v 0x00800000 = false ->
     lane i (rsqrt_infs_and_nans t) = 0 /\
     r = rsqrt_newton cfg (rsqrtss v) v).
Proof.
  intros Hfast Hwf Hi t v r.
  destruct (prsqrt_fast_body_lane cfg x i Hwf Hi) as (Hc & Hr & Hv).
  fold t v in Hc, Hr, Hv.
  assert (Er : r = Z.lor (lane i (rsqrt_x t)) (lane i (rsqrt_infs_and_nans t))).
  { unfold r, prsqrt. rewrite Hfast. exact Hr. }
  pose proof (rsqrtss_u32 v Hv) as Hx0.
  split; [exact Er|]. rewrite Er. clear Er Hr.
  split; [|split; [|split]].
  - intros Hneg Hne.
    rewrite (prsqrt_lane_negative cfg _ v Hx0 Hv Hneg) in Hc.
    destruct (Z.eqb_spec v 0xFF800000); [contradiction|].
    apply pair_equal_spec in Hc. destruct Hc as [-> ->].
    repeat split; vm_compute; reflexivity.
  - intros Hinf.
    assert (Hneg : lt_oq 24 8 v 0 = true) by (rewrite Hinf; vm_compute; reflexivity).
    rewrite (prsqrt_lane_negative cfg _ v Hx0 Hv Hneg) in Hc.
    destruct (Z.eqb_spec v 0xFF800000); [|contradiction].
    apply pair_equal_spec in Hc. destruct Hc as [-> ->].
    repeat split; vm_compute; reflexivity.
  - intros Hge Hlt.
    assert (Hneg : lt_oq 24 8 v 0 = false).
    { revert Hge. unfold ge_oq, lt_oq. rewrite decode_zero.
      destruct (decode 24 8 v) as [s|[]| |[] m e]; cbv [SFltb SFleb SFcompare];
        try discriminate; reflexivity. }
    rewrite (prsqrt_lane_denormal cfg _ v Hx0 Hneg Hlt) in Hc.
    apply pair_equal_spec in Hc. destruct Hc as [-> ->].
    repeat split; vm_compute; reflexivity.
  - intros Hneg Hden.
    assert (Hlt : lt_oq 24 8 v 0x00800000 = false).
    { destruct (lt_oq 24 8 v 0x00800000) eqn:E; [|reflexivity].
      destruct (denormal_range_class v Hneg E) as [Hge _].
      rewrite Hge in Hden. discriminate. }
    rewrite (prsqrt_lane_other cfg _ v Hlt) in Hc.
    apply pair_equal_spec in Hc. destruct Hc as [-> ->].
    split; [reflexivity|apply Z.lor_0_r].
Qed.

(** The fast square root, lane by lane. *)
Lemma psqrt_fast_lane x i :
  wf_Packet8f x = true -> (i < 8)%nat ->
  let v := lane i x in
  let denormal_mask :=
    Z.land (cmpss v numeric_limits_float_min _CMP_LT_OQ) (cmpss v 0 _CMP_GE_OQ) in
  lane i (psqrt_fast rsqrtss x) =
    Z.land (Z.lnot denormal_mask) (mulss v (sqrt_newton (rsqrtss v) v)) /\
  0 <= v < 2 ^ 32.
Proof.
  intros Hwf Hi.
  destruct (wf_Packet8f_inv x Hwf)
    as (a0 & a1 & a2 & a3 & a4 & a5 & a6 & a7 & -> & (R0 & R1 & R2 & R3) & (R4 & R5 & R6 & R7)).
  revert i Hi. apply lane_cases; (split; [reflexivity|assumption]).
Qed.

Lemma sqrt_newton_range x0 v :
  0 <= x0 < 2 ^ 32 -> 0 <= v < 2 ^ 32 -> 0 <= mulss v (sqrt_newton x0 v) < 2 ^ 32.
Proof. intros Hx Hv. unfold sqrt_newton. u32. Qed.

Lemma psqrt_exact_lane x i :
  wf_Packet8f x = true -> (i < 8)%nat ->
  lane i (psqrt_exact x) = sqrtss (lane i x).
Proof.
  intros Hwf Hi.
  destruct (wf_Packet8f_inv x Hwf)
    as (a0 & a1 & a2 & a3 & a4 & a5 & a6 & a7 & -> & _).
  revert i Hi. apply lane_cases; reflexivity.
Qed.

(** The flush of the fast square root on one lane: the mask is all ones when
    the input is below the smallest normal float and not below zero, and
    zero otherwise. *)
Lemma denormal_mask_cases v :
  Z.land (cmpss v numeric_limits_float_min _CMP_LT_OQ) (cmpss v 0 _CMP_GE_OQ) =
  if lt_oq 24 8 v numeric_limits_float_min && ge_oq 24 8 v 0 then 0xFFFFFFFF else 0.
Proof.
  unfold cmpss.
  destruct (lt_oq 24 8 v numeric_limits_float_min), (ge_oq 24 8 v 0); reflexivity.
Qed.

Lemma psqrt_fast_flush v y :
  0 <= y < 2 ^ 32 ->
  let denormal_mask :=
    Z.land (cmpss v numeric_limits_float_min _CMP_LT_OQ) (cmpss v 0 _CMP_GE_OQ) in
  Z.land (Z.lnot denormal_mask) y =
  if lt_oq 24 8 v numeric_limits_float_min && ge_oq 24 8 v 0 then 0 else y.
Proof.
  intros Hy. cbv zeta. rewrite denormal_mask_cases.
  destruct (lt_oq 24 8 v numeric_limits_float_min && ge_oq 24 8 v 0).
  - apply andnot_ones. assumption.
  - apply andnot_zero.
Qed.

(** Claim C5.  The fast square root, lane by lane: a lane with
    (input < minimum normal) and (input >= 0) is exactly zero, every other
    lane is [input * x1], where [x0] is the hardware estimate of the
    reciprocal square root and [x1 = x0 * (1.5 - 0.5 * input * x0^2)] is one
    Newton step. *)
Theorem psqrt_fast_lanes cfg x i :
  EIGEN_FAST_MATH cfg = true -> wf_Packet8f x = true -> (i < 8)%nat ->
  let v := lane i x in
  let x0 := rsqrtss v in
  let x1 := mulss x0 (subss f_one_point_five (mulss (mulss v f_half) (mulss x0 x0))) in
  let r := lane i (psqrt rsqrtss cfg x) in
  (lt_oq 24 8 v numeric_limits_float_min && ge_oq 24 8 v 0 = true -> r = 0) /\
  (lt_oq 24 8 v numeric_limits_float_min && ge_oq 24 8 v 0 = false -> r = mulss v x1).
Proof.
  intros Hfast Hwf Hi v x0 x1 r.
  destruct (psqrt_fast_lane x i Hwf Hi) as [Hr Hv]. fold v in Hr, Hv.
  assert (Hy : 0 <= mulss v x1 < 2 ^ 32)
    by exact (sqrt_newton_range x0 v (rsqrtss_u32 v Hv) Hv).
  assert (Er : r = if lt_oq 24 8 v numeric_limits_float_min && ge_oq 24 8 v 0
                   then 0 else mulss v x1).
  { unfold r, psqrt. rewrite Hfast, Hr. exact (psqrt_fast_flush v (mulss v x1) Hy). }
  rewrite Er. split; intros ->; reflexivity.
Qed.

(** Claim C10.  In fast mode a lane that holds negative zero is in the
    denormal range, since -0.0 < minimum normal and -0.0 >= 0.0 as ordered
    comparisons, and the flush clears every bit of it, the sign included:
    the lane is +0.0, where the exact square root gives -0.0. *)
Theorem psqrt_fast_negative_zero cfg x i :
  EIGEN_FAST_MATH cfg = true -> wf_Packet8f x = true -> (i < 8)%nat ->
  lane i x = 0x80000000 ->
  lt_oq 24 8 (lane i x) numeric_limits_float_min = true /\
  ge_oq 24 8 (lane i x) 0 = true /\
  lane i (psqrt rsqrtss cfg x) = 0 /\
  lane i (psqrt_exact x) = 0x80000000.
Proof.
  intros Hfast Hwf Hi Hv.
  destruct (psqrt_fast_lane x i Hwf Hi) as [Hr Hrange].
  assert (Hz : lane i (psqrt rsqrtss cfg x) = 0).
  { unfold psqrt. rewrite Hfast, Hr.
    rewrite psqrt_fast_flush
      by exact (sqrt_newton_range _ _ (rsqrtss_u32 _ Hrange) Hrange).
    rewrite Hv. vm_compute. reflexivity. }
  rewrite (psqrt_exact_lane x i Hwf Hi), Hv in *.
  repeat split; try exact Hz; vm_compute; reflexivity.
Qed.

(** Claim C6.  In fast mode a lane that holds plus infinity is not in the
    denormal range, so nothing special is done for it: with the hardware
    estimate of plus infinity, which is +0, the Newton step multiplies an
    infinity by zero and the lane is the NaN 0xffc00000, not the plus
    infinity that the exact square root returns. *)
Theorem psqrt_fast_infinity cfg x i :
  EIGEN_FAST_MATH cfg = true -> rsqrtss 0x7F800000 = 0 ->
  wf_Packet8f x = true -> (i < 8)%nat ->
  lane i x = 0x7F800000 ->
  lt_oq 24 8 (lane i x) numeric_limits_float_min && ge_oq 24 8 (lane i x) 0 = false /\
  lane i (psqrt rsqrtss cfg x) = mulss (lane i x) (sqrt_newton (rsqrtss (lane i x)) (lane i x)) /\
  lane i (psqrt rsqrtss cfg x) = 0xFFC00000 /\
  lane i (psqrt rsqrtss cfg x) <> 0x7F800000 /\
  lane i (psqrt_exact x) = 0x7F800000.
Proof.
  intros Hfast Hest Hwf Hi Hv.
  destruct (psqrt_fast_lane x i Hwf Hi) as [Hr Hrange].
  assert (Hm : lt_oq 24 8 (lane i x) numeric_limits_float_min
               && ge_oq 24 8 (lane i x) 0 = false)
    by (rewrite Hv; vm_compute; reflexivity).
  assert (Hn : lane i (psqrt rsqrtss cfg x) =
               mulss (lane i x) (sqrt_newton (rsqrtss (lane i x)) (lane i x))).
  { unfold psqrt. rewrite Hfast, Hr.
    rewrite psqrt_fast_flush
      by exact (sqrt_newton_range _ _ (rsqrtss_u32 _ Hrange) Hrange).
    rewrite Hm. reflexivity. }
  assert (Hc : lane i (psqrt rsqrtss cfg x) = 0xFFC00000).
  { rewrite Hn, Hv, Hest. vm_compute. reflexivity. }
  split; [exact Hm|]. split; [exact Hn|]. split; [exact Hc|].
  split; [rewrite Hc; discriminate|].
  rewrite (psqrt_exact_lane x i Hwf Hi), Hv. vm_compute. reflexivity.
Qed.
End RootKernels.

(* ================================================================== *)
(** ** Round trips, the floor and the conversion to an integer *)

Lemma pack_mant_field s e m : mant_field 24 (pack 24 8 s e m) = Z.land m (Z.ones 23).
Proof.
  unfold mant_field, pack. change (width 24 8 - 1) with 31. change (mant_bits 24) with 23.
  apply Z.bits_inj'. intros i Hi.
  rewrite !Z.land_spec, !Z.lor_spec, !Z.shiftl_spec, !Z.land_spec by lia.
  destruct (Z_lt_le_dec i 23).
  - rewrite (Z.testbit_neg_r _ (i - 31)), (Z.testbit_neg_r _ (i - 23)) by lia.
    rewrite !andb_false_l, !orb_false_l.
    destruct (Z.testbit m i), (Z.testbit (Z.ones 23) i); reflexivity.
  - rewrite (Z.ones_spec_high 23) by lia. rewrite !andb_false_r. reflexivity.
Qed.

Lemma pack_sign_bit s e m : sign_bit 24 8 (pack 24 8 s e m) = s.
Proof.
  unfold sign_bit, pack. change (width 24 8 - 1) with 31. change (mant_bits 24) with 23.
  rewrite !Z.lor_spec, !Z.shiftl_spec, !Z.land_spec by lia.
  rewrite (Z.ones_spec_high 23), (Z.ones_spec_high 8) by lia.
  rewrite !andb_false_r, !orb_false_r. change (31 - 31) with 0.
  destruct s; reflexivity.
Qed.

Lemma lor_hidden_bit a : 0 <= a < 2 ^ 23 -> Z.lor a (2 ^ 23) = a + 2 ^ 23.
Proof.
  intros Ha.
  assert (H : Z.land a (2 ^ 23) = 0).
  { apply Z.bits_inj'. intros i Hi. rewrite Z.land_spec, Z.bits_0, Z.pow2_bits_eqb by lia.
    destruct (Z.eqb_spec 23 i) as [<-|]; [|apply andb_false_r].
    rewrite (proj1 (range_bits 23 a ltac:(lia)) Ha 23) by lia. reflexivity. }
  rewrite <- Z.lxor_lor by exact H. symmetry. apply Z.add_nocarry_lxor. exact H.
Qed.

Lemma decode_encode_normal s m e :
  2 ^ 23 <= Z.pos m < 2 ^ 24 -> -149 <= e <= 104 ->
  decode 24 8 (encode 24 8 (S754_finite s m e)) = S754_finite s m e.
Proof.
  intros Hm He. cbn [encode]. change (mant_bits 24) with 23.
  change (Z.shiftl 1 23) with (2 ^ 23).
  destruct (Z.ltb_spec (Z.pos m) (2 ^ 23)); [lia|].
  unfold decode. rewrite pack_exp_field, pack_mant_field, pack_sign_bit.
  change (fmt_emin 24 8) with (-149). change (mant_bits 24) with 23.
  rewrite !Z.land_ones by lia.
  replace ((e - -149 + 1) mod 2 ^ 8) with (e + 150) by (rewrite Z.mod_small; lia).
  destruct (Z.eqb_spec (e + 150) 0); [lia|].
  change (Z.ones 8) with 255.
  destruct (Z.eqb_spec (e + 150) 255); [lia|].
  assert (Em : Z.pos m mod 2 ^ 23 = Z.pos m - 2 ^ 23).
  { symmetry. apply (Z.mod_unique _ _ 1); lia. }
  change (Z.shiftl 1 23) with (2 ^ 23).
  rewrite Em, lor_hidden_bit by lia.
  replace (Z.pos m - 2 ^ 23 + 2 ^ 23) with (Z.pos m) by lia.
  f_equal. lia.
Qed.

Lemma decode_encode_special f :
  match f with S754_finite _ _ _ => False | _ => True end ->
  decode 24 8 (encode 24 8 f) = f.
Proof. destruct f as [[]|[]| |]; intros H; try contradiction; vm_compute; reflexivity. Qed.

Lemma decode_quiet_nan w : is_nan 24 8 w = true -> decode 24 8 (quiet 24 w) = S754_nan.
Proof.
  intros H. apply decode_nan. unfold is_nan in *. apply andb_true_iff in H.
  destruct H as [He Hm]. apply andb_true_iff. split.
  - rewrite <- He. f_equal. unfold exp_field, quiet. change (mant_bits 24) with 23.
    apply Z.bits_inj'. intros i Hi.
    rewrite !Z.land_spec, !Z.shiftr_spec, Z.lor_spec by lia.
    change (Z.shiftl 1 (23 - 1)) with (2 ^ 22). rewrite Z.pow2_bits_eqb by lia.
    destruct (Z.eqb_spec 22 (i + 23)); [lia|]. rewrite orb_false_r. reflexivity.
  - apply negb_true_iff, Z.eqb_neq. intros E.
    assert (B : Z.testbit (mant_field 24 (quiet 24 w)) 22 = true).
    { unfold mant_field, quiet. change (mant_bits 24) with 23.
      rewrite Z.land_spec, Z.lor_spec. change (Z.shiftl 1 (23 - 1)) with (2 ^ 22).
      rewrite Z.pow2_bits_eqb, Z.ones_spec_low by lia.
      rewrite Z.eqb_refl, orb_true_r. reflexivity. }
    rewrite E in B. rewrite Z.bits_0 in B. discriminate.
Qed.

(** *** Exact shifts *)

Lemma shr_1_double a :
  0 <= a -> shr_1 (Build_shr_record (a * 2) false false) = Build_shr_record a false false.
Proof.
  intros Ha. destruct a as [|p|p]; [reflexivity| |lia].
  replace (Z.pos p * 2) with (Z.pos p~0) by lia. reflexivity.
Qed.

Lemma iter_shr_1_exact p : forall q,
  0 <= q ->
  iter_pos shr_1 p (Build_shr_record (q * 2 ^ Z.pos p) false false) =
  Build_shr_record q false false.
Proof.
  induction p as [p IH|p IH|]; intros q Hq; cbn [iter_pos].
  - replace (q * 2 ^ Z.pos p~1) with (q * 2 ^ Z.pos p * 2 ^ Z.pos p * 2).
    + assert (0 <= 2 ^ Z.pos p) by (apply Z.pow_nonneg; lia).
      rewrite shr_1_double by nia. rewrite IH by nia. apply IH. assumption.
    + replace (Z.pos p~1) with (Z.pos p + Z.pos p + 1) by lia.
      rewrite !Z.pow_add_r by lia. change (2 ^ 1) with 2. ring.
  - replace (q * 2 ^ Z.pos p~0) with (q * 2 ^ Z.pos p * 2 ^ Z.pos p).
    + assert (0 <= 2 ^ Z.pos p) by (apply Z.pow_nonneg; lia).
      rewrite IH by nia. apply IH. assumption.
    + replace (Z.pos p~0) with (Z.pos p + Z.pos p) by lia.
      rewrite !Z.pow_add_r by lia. ring.
  - change (2 ^ 1) with 2. apply shr_1_double. assumption.
Qed.

Lemma SFnearest_int_exact s m e k :
  e < 0 -> 0 <= k -> Z.pos m = k * 2 ^ (- e) -> SFnearest_int s m e = cond_Zopp s k.
Proof.
  intros He Hk Hm. unfold SFnearest_int.
  destruct (Z.leb_spec 0 e); [lia|].
  destruct e as [|p|p]; try lia. cbn [Z.opp shr]. change (- Z.neg p) with (Z.pos p) in Hm.
  rewrite Hm, iter_shr_1_exact by assumption. reflexivity.
Qed.

Lemma iter_xO_pow p k : Z.pos (Pos.iter xO p k) = Z.pos p * 2 ^ Z.pos k.
Proof.
  induction k as [|k IH] using Pos.peano_ind.
  - cbn [Pos.iter]. lia.
  - rewrite Pos.iter_succ, Pos2Z.inj_xO, IH, Pos2Z.inj_succ, Z.pow_succ_r by lia. ring.
Qed.

(** *** Rounding an integer that fits the significand *)

Lemma binary_round_aux_canonical sx mz ez :
  Zdigits2 (Z.pos mz) = 24 -> -149 <= ez <= 104 ->
  binary_round_aux 24 128 sx (Z.pos mz) ez loc_Exact = S754_finite sx mz ez.
Proof.
  intros Hd He. unfold binary_round_aux, shr_fexp.
  cbn [shr_record_of_loc]. rewrite Hd.
  replace (fexp 24 128 (24 + ez) - ez) with 0 by (unfold fexp, emin; lia).
  cbn [shr loc_of_shr_record round_nearest_even shr_m shr_record_of_loc].
  rewrite Hd.
  replace (fexp 24 128 (24 + ez) - ez) with 0 by (unfold fexp, emin; lia).
  cbn [shr shr_m].
  destruct (Z.leb_spec ez (128 - 24)); [reflexivity|lia].
Qed.

Lemma binary_round_integer sx p :
  Z.pos p < 2 ^ 24 ->
  exists mz ez,
    binary_round 24 128 sx p 0 = S754_finite sx mz ez /\
    -23 <= ez <= 0 /\ Z.pos mz = Z.pos p * 2 ^ (- ez) /\ 2 ^ 23 <= Z.pos mz < 2 ^ 24.
Proof.
  intros Hp. unfold binary_round.
  pose proof (Zdigits2_bounds (Z.pos p) ltac:(lia)) as Hb. cbn [Zdigits2] in Hb.
  set (d := Z.pos (digits2_pos p)) in *.
  assert (Hd : 1 <= d <= 24).
  { split; [unfold d; lia|].
    destruct (Z_lt_le_dec 24 d); [|lia].
    assert (2 ^ 24 <= 2 ^ (d - 1)) by (apply Z.pow_le_mono_r; lia). lia. }
  replace (fexp 24 128 (d + 0)) with (d - 24) by (unfold fexp, emin; lia).
  unfold shl_align.
  destruct (d - 24 - 0) as [|k|k] eqn:Ek; try lia.
  - exists p, 0. rewrite binary_round_aux_canonical; [|cbn [Zdigits2]; fold d; lia|lia].
    assert (d = 24) by lia. subst d. rewrite H in Hb.
    repeat split; try lia.
  - exists (Pos.iter xO p k), (d - 24).
    assert (Hz : Z.pos (Pos.iter xO p k) = Z.pos p * 2 ^ (- (d - 24))).
    { rewrite iter_xO_pow. f_equal. f_equal. lia. }
    assert (Hdig : Zdigits2 (Z.pos (Pos.iter xO p k)) = 24).
    { rewrite Hz, Zdigits2_mul_pow2 by lia. cbn [Zdigits2]. fold d. lia. }
    rewrite binary_round_aux_canonical by (assumption || lia).
    split; [reflexivity|]. split; [lia|]. split; [assumption|].
    pose proof (Zdigits2_bounds (Z.pos (Pos.iter xO p k)) ltac:(lia)) as Hb'.
    rewrite Hdig in Hb'. exact Hb'.
Qed.

(** *** The floor is an integer and its conversion keeps the parity *)

Lemma decode_finite_normal b s m e :
  decode 24 8 b = S754_finite s m e -> e <> -149 -> 2 ^ 23 <= Z.pos m.
Proof.
  unfold decode. change (mant_bits 24) with 23.
  change (fmt_emin 24 8) with (-149). change (Z.ones 8) with 255.
  pose proof (mant_field_range b) as Hm.
  destruct (Z.eqb_spec (exp_field 24 8 b) 0).
  - destruct (mant_field 24 b) eqn:Em; intros H; try discriminate H.
    assert (Ee : -149 = e)
      by exact (f_equal (fun f => match f with S754_finite _ _ q => q | _ => 0 end) H).
    lia.
  - destruct (Z.eqb_spec (exp_field 24 8 b) 255).
    + destruct (mant_field 24 b =? 0); discriminate.
    + change (Z.shiftl 1 23) with (2 ^ 23). rewrite lor_hidden_bit by lia.
      destruct (mant_field 24 b + 2 ^ 23) as [|p|p] eqn:Ep; intros H; try discriminate H.
      assert (Em : Z.pos p = Z.pos m)
        by exact (f_equal (fun f => match f with S754_finite _ q _ => Z.pos q | _ => 0 end) H).
      lia.
Qed.

Lemma shiftr_magnitude a k : 0 <= k -> Z.abs (Z.shiftr a k) <= Z.abs a.
Proof.
  intros Hk. rewrite Z.shiftr_div_pow2 by assumption.
  assert (Hp : 0 < 2 ^ k) by (apply Z.pow_pos_nonneg; lia).
  pose proof (Z.div_mod a (2 ^ k) ltac:(lia)) as E.
  pose proof (Z.mod_pos_bound a (2 ^ k) Hp) as B.
  nia.
Qed.

Lemma floor_integral w : integral_value (roundss_floor w).
Proof.
  unfold integral_value, roundss_floor, lift1.
  destruct (is_nan 24 8 w) eqn:N; [rewrite decode_quiet_nan by assumption; exact I|].
  destruct (decode 24 8 w) as [s|s| |s m e] eqn:D; cbn [SFfloor];
    try (rewrite decode_encode_special by exact I; exact I).
  destruct (decode_finite_bounds w s m e D) as [Hm He].
  destruct (Z.leb_spec 0 e) as [Hpos|Hneg].
  - pose proof (decode_finite_normal w s m e D ltac:(lia)).
    rewrite decode_encode_normal by lia. left. assumption.
  - pose proof (shiftr_magnitude (cond_Zopp s (Z.pos m)) (- e) ltac:(lia)) as Hn.
    assert (Ha : Z.abs (cond_Zopp s (Z.pos m)) = Z.pos m) by (destruct s; reflexivity).
    rewrite Ha in Hn. clear Ha.
    change (fmt_emax 8) with 128.
    destruct (Z.shiftr (cond_Zopp s (Z.pos m)) (- e)) as [|p|p]; cbn [binary_normalize].
    + rewrite decode_encode_special by exact I. exact I.
    + destruct (binary_round_integer false p ltac:(cbn [Z.abs] in Hn; lia))
        as (mz & ez & -> & Hez & Hmz & Hr).
      rewrite decode_encode_normal by lia. right. rewrite Hmz. apply Z.mod_mul.
      apply Z.pow_nonzero; lia.
    + destruct (binary_round_integer true p ltac:(cbn [Z.abs] in Hn; lia))
        as (mz & ez & -> & Hez & Hmz & Hr).
      rewrite decode_encode_normal by lia. right. rewrite Hmz. apply Z.mod_mul.
      apply Z.pow_nonzero; lia.
Qed.

Lemma odd_mod_pow2 n : Z.odd (n mod 2 ^ 32) = Z.odd n.
Proof. rewrite <- !Z.bit0_odd. apply Z.mod_pow2_bits_low. lia. Qed.

Lemma odd_cond_Zopp s n : Z.odd (cond_Zopp s n) = Z.odd n.
Proof. destruct s; [apply Z.odd_opp|reflexivity]. Qed.

Lemma cvtss2si_parity b :
  integral_value b -> Z.odd (cvtss2si b) = odd_integer b.
Proof.
  unfold integral_value, cvtss2si, to_int_pattern, odd_integer.
  destruct (decode 24 8 b) as [s|s| |s m e] eqn:D; intros Hint; try reflexivity.
  destruct (decode_finite_bounds b s m e D) as [Hm He].
  destruct (Z.leb_spec 0 e) as [Hpos|Hneg].
  - assert (En : SFnearest_int s m e = cond_Zopp s (Z.shiftl (Z.pos m) e)).
    { unfold SFnearest_int. destruct (Z.leb_spec 0 e); [reflexivity|lia]. }
    rewrite En.
    assert (Eo : Z.odd (Z.shiftl (Z.pos m) e) = (e =? 0) && Z.odd (Z.pos m)).
    { rewrite <- !Z.bit0_odd, Z.shiftl_spec by lia.
      destruct (Z.eqb_spec e 0) as [->|]; [reflexivity|].
      apply Z.testbit_neg_r. lia. }
    match goal with |- context [if ?c then _ else _] => destruct c eqn:Ec end.
    + rewrite odd_mod_pow2, odd_cond_Zopp. exact Eo.
    + destruct (Z.eqb_spec e 0) as [->|]; [|reflexivity].
      exfalso. rewrite Z.shiftl_0_r in Ec.
      apply andb_false_iff in Ec. rewrite Z.leb_gt, Z.ltb_ge in Ec.
      change (2 ^ (32 - 1)) with (2 ^ 31) in Ec. destruct s; cbn [cond_Zopp] in Ec; lia.
  - destruct Hint as [|Hdiv]; [lia|].
    assert (Hp : 0 < 2 ^ (- e)) by (apply Z.pow_pos_nonneg; lia).
    pose proof (Z.div_mod (Z.pos m) (2 ^ (- e)) ltac:(lia)) as E.
    rewrite Hdiv in E.
    set (k := Z.pos m / 2 ^ (- e)) in *.
    assert (Hk : 0 <= k) by (apply Z.div_pos; lia).
    rewrite (SFnearest_int_exact s m e k) by lia.
    rewrite Hdiv. change (0 =? 0) with true. rewrite andb_true_l.
    assert (Hkm : k <= Z.pos m) by nia.
    match goal with |- context [if ?c then _ else _] => destruct c eqn:Ec end.
    + rewrite odd_mod_pow2, odd_cond_Zopp. reflexivity.
    + exfalso. apply andb_false_iff in Ec. rewrite Z.leb_gt, Z.ltb_ge in Ec.
      change (2 ^ (32 - 1)) with (2 ^ 31) in Ec. destruct s; cbn [cond_Zopp] in Ec; lia.
Qed.

Lemma sin_shift_parity v :
  Z.odd (cvtss2si (sin_shift_of v)) = odd_integer (sin_shift_of v).
Proof. apply cvtss2si_parity. unfold sin_shift_of. apply floor_integral. Qed.

(** Without FMA the multiply-add is the packet product followed by the
    packet sum. *)
Lemma pmadd_unfused cfg a b c :
  FMA cfg = false -> pmadd cfg a b c = padd (pmul a b) c.
Proof.
  intros H. unfold pmadd, padd, pmul, maddss. rewrite H.
  revert b c. induction a as [|x a IH]; intros [|y b] [|z c]; cbn [lanes2 lanes3];
    try reflexivity.
  f_equal. apply IH.
Qed.

Lemma pmadd_fused cfg a b c :
  FMA cfg = true -> pmadd cfg a b c = lanes3 vfmaddss a b c.
Proof. intros H. unfold pmadd, maddss. rewrite H. reflexivity. Qed.

(** The patterns of the float literals are the floats closest to the
    decimals written in the source. *)
Lemma literals_rounded :
  forallb (fun l => nearest_to 24 8 (fst l) (fst (snd l)) (snd (snd l)))
    [ (f_one, (1, 1)); (f_two, (2, 1)); (f_one_over_four, (25, 100));
      (f_one_over_pi, (3183098861837907, 10 ^ 16));
      (f_neg_pi_first, (-3140625000000000, 10 ^ 15));
      (f_neg_pi_second, (-9670257568359375, 10 ^ 19));
      (f_neg_pi_third, (-6278329571784980, 10 ^ 22));
      (f_four_over_pi, (1273239544735163, 10 ^ 15));
      (f_coeff_right_0, (9999999724233232, 10 ^ 16));
      (f_coeff_right_2, (-3084242535619928, 10 ^ 16));
      (f_coeff_right_4, (1584991525700324, 10 ^ 17));
      (f_coeff_right_6, (-3188805084631342, 10 ^ 19));
      (f_coeff_left_1, (7853981525427295, 10 ^ 16));
      (f_coeff_left_3, (-8074536727092352, 10 ^ 17));
      (f_coeff_left_5, (2489871967827018, 10 ^ 18));
      (f_coeff_left_7, (-3587725841214251, 10 ^ 20));
      (f_half, (5, 10)); (f_one_point_five, (15, 10)); (f_minus_half, (-5, 10));
      (numeric_limits_float_min, (1, 2 ^ 126)) ] = true
  /\ exactly 53 11 d_one 1 1 = true.
Proof. vm_compute. split; reflexivity. Qed.

Example odd_integer_samples :
  map odd_integer [0x3F800000; 0x40000000; 0x40400000; 0xBF800000; 0x3FC00000;
                   0x4B800001; 0x4B800000; 0; 0x7F800000; 0x7FC00000]
  = [true; false; true; true; false; false; false; false; false; false].
Proof. vm_compute. reflexivity. Qed.

(* ================================================================== *)
(** ** The sine kernel *)

Ltac sin_cbv :=
  cbv [psin psin_body sin_shift sin_x sin_z sin_shift_ints sin_sign_flip_mask
       sin_ival_mask sin_right sin_left sin_res sin_return
       sin_shift_of sin_reduced_x sin_reduced_z sin_poly_right sin_poly_left];
  packet_cbv.

Lemma psin_body_lane cfg x i :
  wf_Packet8f x = true -> (i < 8)%nat ->
  let t := psin_body cfg x in
  let v := lane i x in
  let z := sin_reduced_z cfg v in
  let n := cvtss2si (sin_shift_of v) in
  let mask := cmpss z f_one _CMP_GT_OQ in
  0 <= v < 2 ^ 32 /\
  (lane i (sin_shift t) = sin_shift_of v /\
   lane i (sin_x t) = sin_reduced_x cfg v /\
   lane i (sin_z t) = z) /\
  (lane i (sin_shift_ints t) = n /\
   lane i (sin_sign_flip_mask t) = slli32 31 (Z.land n 1)) /\
  (lane i (sin_ival_mask t) = mask /\
   lane i (sin_right t) = sin_poly_right cfg z /\
   lane i (sin_left t) = sin_poly_left cfg z /\
   lane i (sin_res t) =
     Z.lor (Z.land (Z.lnot mask) (sin_poly_left cfg z))
           (Z.land mask (sin_poly_right cfg z))) /\
  lane i (sin_return t) =
    Z.lxor (lane i (sin_res t)) (lane i (sin_sign_flip_mask t)).
Proof.
  intros Hwf Hi.
  destruct (wf_Packet8f_inv x Hwf)
    as (a0 & a1 & a2 & a3 & a4 & a5 & a6 & a7 & -> & (R0 & R1 & R2 & R3) & (R4 & R5 & R6 & R7)).
  revert i Hi. apply lane_cases;
    (split; [assumption|]); sin_cbv; rewrite pshiftleft_lanes by reflexivity; sin_cbv;
    repeat split; reflexivity.
Qed.

(** Claim C2.  The range reduction of [psin], lane by lane:
    [shift = floor(x * (1/pi) + 0.25)], then [shift * pi] is taken from [x]
    by three successive multiply-adds with the constants -3.140625,
    -9.670257568359375e-04 and -6.278329571784980e-07, of decreasing
    magnitude, and the reduced coordinate is [z = reduced_x * (4/pi)].  Each
    multiply-add is fused in a build that has FMA, and is the rounded
    product followed by the rounded sum in a build that has not.  The
    patterns of the constants are the floats closest to the literals of the
    source, the first two exactly. *)
Theorem psin_range_reduction cfg x i :
  wf_Packet8f x = true -> (i < 8)%nat ->
  let t := psin_body cfg x in
  let v := lane i x in
  let z0 := mulss v f_one_over_pi in
  let shift := roundss_floor (addss z0 f_one_over_four) in
  let x1 := maddss cfg shift f_neg_pi_first v in
  let x2 := maddss cfg shift f_neg_pi_second x1 in
  let x3 := maddss cfg shift f_neg_pi_third x2 in
  let y1 := addss (mulss shift f_neg_pi_first) v in
  let y2 := addss (mulss shift f_neg_pi_second) y1 in
  let y3 := addss (mulss shift f_neg_pi_third) y2 in
  (lane i (sin_shift t) = shift /\
   lane i (sin_x t) = x3 /\
   lane i (sin_z t) = mulss x3 f_four_over_pi) /\
  ((FMA cfg = true -> lane i (sin_x t) = sin_reduced_x_fused v) /\
   (FMA cfg = false -> lane i (sin_x t) = y3)) /\
  (nearest_to 24 8 f_one_over_pi 3183098861837907 (10 ^ 16) = true /\
   exactly 24 8 f_one_over_four 25 100 = true /\
   nearest_to 24 8 f_four_over_pi 1273239544735163 (10 ^ 15) = true) /\
  (exactly 24 8 f_neg_pi_first (-3140625) (10 ^ 6) = true /\
   exactly 24 8 f_neg_pi_second (-9670257568359375) (10 ^ 19) = true /\
   nearest_to 24 8 f_neg_pi_third (-6278329571784980) (10 ^ 22) = true) /\
  (lt_oq 24 8 f_neg_pi_first f_neg_pi_second = true /\
   lt_oq 24 8 f_neg_pi_second f_neg_pi_third = true /\
   lt_oq 24 8 f_neg_pi_third 0 = true).
Proof.
  intros Hwf Hi t v z0 shift x1 x2 x3 y1 y2 y3.
  destruct (psin_body_lane cfg x i Hwf Hi) as (_ & Hred & _).
  split; [exact Hred|].
  split.
  { destruct Hred as (_ & Hx & _). fold t v in Hx. rewrite Hx.
    cbv [sin_reduced_x sin_reduced_x_fused maddss]. subst y3 y2 y1 shift z0.
    split; intros ->; reflexivity. }
  repeat split; vm_compute; reflexivity.
Qed.

Lemma sin_reduced_z_range cfg v : 0 <= v < 2 ^ 32 -> 0 <= sin_reduced_z cfg v < 2 ^ 32.
Proof. intros Hv. unfold sin_reduced_z, sin_reduced_x, sin_shift_of. u32. Qed.

Lemma sin_poly_right_range cfg z : 0 <= z < 2 ^ 32 -> 0 <= sin_poly_right cfg z < 2 ^ 32.
Proof. intros Hz. unfold sin_poly_right. u32. Qed.

Lemma sin_poly_left_range cfg z : 0 <= z < 2 ^ 32 -> 0 <= sin_poly_left cfg z < 2 ^ 32.
Proof. intros Hz. unfold sin_poly_left. u32. Qed.

(** The interval selection in one lane: the mask of [z > 1] picks the right
    polynomial, its complement the left one. *)
Lemma sin_select cfg z :
  0 <= z < 2 ^ 32 ->
  let mask := cmpss z f_one _CMP_GT_OQ in
  Z.lor (Z.land (Z.lnot mask) (sin_poly_left cfg z)) (Z.land mask (sin_poly_right cfg z)) =
  if gt_oq 24 8 z f_one then sin_poly_right cfg z else sin_poly_left cfg z.
Proof.
  intros Hz. apply (mask_select (gt_oq 24 8 z f_one)).
  - apply sin_poly_left_range. assumption.
  - apply sin_poly_right_range. assumption.
Qed.

(** Claim C3.  The interval selection of [psin], lane by lane, for the
    reduced coordinate [z] of the input lane: the result before the sign
    flip is the even polynomial in [(z-2)^2] when [z > 1] and the odd
    polynomial in [z^2] times [z] otherwise, each a Horner chain of three
    multiply-adds over four coefficients, and the two are combined by
    AND-NOT, AND and OR with the mask of the comparison [z > 1].  The
    multiply-adds are fused in a build that has FMA, and are rounded
    products followed by rounded sums in a build that has not. *)
Theorem psin_interval_select cfg x i :
  wf_Packet8f x = true -> (i < 8)%nat ->
  let t := psin_body cfg x in
  let v := lane i x in
  let z := sin_reduced_z cfg v in
  let mask := if gt_oq 24 8 z f_one then 0xFFFFFFFF else 0 in
  let right := sin_poly_right cfg z in
  let left := sin_poly_left cfg z in
  let u := mulss (subss z f_two) (subss z f_two) in
  let w := mulss z z in
  (lane i (sin_z t) = z /\
   lane i (sin_ival_mask t) = mask /\
   lane i (sin_right t) = right /\
   lane i (sin_left t) = left) /\
  lane i (sin_res t) = Z.lor (Z.land (Z.lnot mask) left) (Z.land mask right) /\
  lane i (sin_res t) = (if gt_oq 24 8 z f_one then right else left) /\
  lane i (psin cfg x) = Z.lxor (lane i (sin_res t)) (lane i (sin_sign_flip_mask t)) /\
  (FMA cfg = true ->
   right = sin_poly_right_fused z /\ left = sin_poly_left_fused z) /\
  (FMA cfg = false ->
   right =
     addss (mulss
       (addss (mulss (addss (mulss f_coeff_right_6 u) f_coeff_right_4) u) f_coeff_right_2)
       u) f_coeff_right_0 /\
   left =
     mulss
       (addss (mulss
          (addss (mulss (addss (mulss f_coeff_left_7 w) f_coeff_left_5) w) f_coeff_left_3)
          w) f_coeff_left_1)
       z).
Proof.
  intros Hwf Hi t v z mask right left u w.
  destruct (psin_body_lane cfg x i Hwf Hi)
    as (Hv & (_ & _ & Hz) & _ & (Hm & Hr & Hl & Hres) & Hy).
  fold t v z in Hz, Hm, Hr, Hl, Hres. fold t in Hy. fold right in Hr, Hres. fold left in Hl, Hres.
  assert (Hzr : 0 <= z < 2 ^ 32) by (apply sin_reduced_z_range; assumption).
  split; [repeat split; assumption|].
  split; [exact Hres|].
  split; [rewrite Hres; apply sin_select; exact Hzr|].
  split; [exact Hy|].
  subst right left u w. cbv [sin_poly_right sin_poly_left sin_poly_right_fused
                             sin_poly_left_fused maddss].
  split; intros ->; split; reflexivity.
Qed.

Lemma sign_flip_mask_odd n :
  slli32 31 (Z.land n 1) = if Z.odd n then 0x80000000 else 0.
Proof.
  change 1 with (Z.ones 1) at 1. rewrite Z.land_ones by lia.
  change (2 ^ 1) with 2. rewrite Zmod_odd.
  destruct (Z.odd n); reflexivity.
Qed.

Lemma testbit_sign_mask (b : bool) j :
  Z.testbit (if b then 0x80000000 else 0) j = b && (j =? 31).
Proof.
  destruct b; [|apply Z.bits_0].
  change 0x80000000 with (2 ^ 31). rewrite Z.pow2_bits_eqb by lia.
  rewrite Z.eqb_sym. reflexivity.
Qed.

(** Claim C4.  The sign correction of [psin], lane by lane: the shift of the
    input lane, [floor(x * (1/pi) + 0.25)], is converted to an integer, its
    lowest bit is moved to bit 31 and the mask is XORed into the combined
    polynomial result of the lane.  The integer is odd exactly when the
    value of the shift is an odd integer, so the sign bit of the lane
    returned is flipped exactly in the lanes whose shift is odd and no
    other bit changes. *)
Theorem psin_sign_flip cfg x i :
  wf_Packet8f x = true -> (i < 8)%nat ->
  let t := psin_body cfg x in
  let v := lane i x in
  let shift := sin_shift_of v in
  let n := cvtss2si shift in
  let m := Z.land (Z.shiftl (Z.land n 1) 31) 0xFFFFFFFF in
  let z := sin_reduced_z cfg v in
  let res := if gt_oq 24 8 z f_one then sin_poly_right cfg z else sin_poly_left cfg z in
  let y := lane i (psin cfg x) in
  (lane i (sin_shift t) = shift /\
   lane i (sin_shift_ints t) = n /\
   lane i (sin_sign_flip_mask t) = m /\
   lane i (sin_res t) = res) /\
  Z.odd n = odd_integer shift /\
  m = (if odd_integer shift then 0x80000000 else 0) /\
  y = Z.lxor res m /\
  Z.testbit y 31 = xorb (Z.testbit res 31) (odd_integer shift) /\
  (forall j, j <> 31 -> Z.testbit y j = Z.testbit res j).
Proof.
  intros Hwf Hi t v shift n m z res y.
  destruct (psin_body_lane cfg x i Hwf Hi)
    as (Hv & (Hs & _) & (Hn & Hm) & (_ & _ & _ & Hres) & Hy).
  fold t v in Hs, Hn, Hm, Hres, Hy. fold shift in Hs, Hn, Hm. fold n in Hn, Hm. fold z in Hres.
  assert (Hm' : lane i (sin_sign_flip_mask t) = m) by exact Hm.
  assert (Hres' : lane i (sin_res t) = res).
  { rewrite Hres. apply sin_select. apply sin_reduced_z_range. assumption. }
  assert (Ho : Z.odd n = odd_integer shift) by apply sin_shift_parity.
  assert (Em : m = if odd_integer shift then 0x80000000 else 0).
  { rewrite <- Ho. apply sign_flip_mask_odd. }
  assert (Ey : y = Z.lxor res m).
  { rewrite <- Hres', <- Hm'. exact Hy. }
  split; [repeat split; assumption|].
  split; [exact Ho|]. split; [exact Em|]. split; [exact Ey|].
  rewrite Ey, Em. split.
  - rewrite Z.lxor_spec, testbit_sign_mask. rewrite andb_true_r. reflexivity.
  - intros j Hj. rewrite Z.lxor_spec, testbit_sign_mask.
    destruct (Z.eqb_spec j 31); [contradiction|]. rewrite andb_false_r. apply xorb_false_r.
Qed.

(** Claim C8.  On a lane that holds a zero the range reduction leaves the
    zero unchanged, the shift is 0 and there is no sign flip, the interval
    mask selects the left branch, and the odd polynomial times [z] is zero:
    [psin] returns the zero it was given, so the sine of 0 is 0 bit for
    bit. *)
Theorem psin_zero cfg x i :
  wf_Packet8f x = true -> (i < 8)%nat ->
  let t := psin_body cfg x in
  let v := lane i x in
  v = 0 \/ v = 0x80000000 ->
  lane i (sin_shift t) = 0 /\
  lane i (sin_x t) = v /\
  lane i (sin_z t) = v /\
  lane i (sin_sign_flip_mask t) = 0 /\
  lane i (sin_ival_mask t) = 0 /\
  lane i (sin_res t) = sin_poly_left cfg v /\
  lane i (psin cfg x) = v /\
  (v = 0 -> lane i (psin cfg x) = 0).
Proof.
  intros Hwf Hi t v Hv.
  destruct (psin_body_lane cfg x i Hwf Hi)
    as (_ & (Hs & Hx & Hz) & (_ & Hm) & (Hi' & _ & _ & Hres) & Hy).
  fold t v in Hs, Hx, Hz, Hm, Hi', Hres, Hy.
  assert (Hy' : lane i (psin cfg x) =
                Z.lxor (lane i (sin_res t)) (lane i (sin_sign_flip_mask t))) by exact Hy.
  rewrite Hy', Hres, Hm, Hs, Hx, Hz, Hi'. clearbody v. clear - Hv.
  unfold sin_reduced_z, sin_reduced_x, sin_poly_left, sin_poly_right, sin_shift_of, maddss.
  destruct Hv as [-> | ->]; destruct (FMA cfg); vm_compute;
    repeat split; try reflexivity; discriminate.
Qed.

(* ================================================================== *)
(** ** The translation unit *)

Lemma wf_Packet4d_inv x :
  wf_Packet4d x = true -> exists a0 a1 a2 a3, x = [a0; a1; a2; a3].
Proof.
  unfold wf_Packet4d. rewrite andb_true_iff, Nat.eqb_eq. intros [L _].
  do 4 (destruct x as [|? x]; [discriminate L|]). destruct x; [|discriminate L].
  do 4 eexists. reflexivity.
Qed.

Lemma lane_cases4 (Q : nat -> Prop) :
  Q 0%nat -> Q 1%nat -> Q 2%nat -> Q 3%nat -> forall i, (i < 4)%nat -> Q i.
Proof.
  intros H0 H1 H2 H3 i Hi. do 4 (destruct i as [|i]; [assumption|]). lia.
Qed.

Section TranslationUnit.
Variable rsqrtss : Z -> Z.
Variables plog_float pexp_float generic_fast_tanh_float : Packet8f -> Packet8f.
Variable pexp_double : Packet4d -> Packet4d.

(** Claim C7.  Whatever the build configuration, fast math included, the
    square root of a packet of four doubles is the exact vector square root
    and its reciprocal square root is 1 divided by the exact square root. *)
Theorem double_precision_exact cfg x i :
  wf_Packet4d x = true -> (i < 4)%nat ->
  let unit := build rsqrtss plog_float pexp_float generic_fast_tanh_float pexp_double cfg in
  mf_psqrt_4d unit x = _mm256_sqrt_pd x /\
  lane i (mf_psqrt_4d unit x) = sqrtsd (lane i x) /\
  mf_prsqrt_4d unit x = _mm256_div_pd (pset1_4d d_one) (_mm256_sqrt_pd x) /\
  lane i (mf_prsqrt_4d unit x) = divsd d_one (sqrtsd (lane i x)) /\
  exactly 53 11 d_one 1 1 = true.
Proof.
  intros Hwf Hi unit. destruct (wf_Packet4d_inv x Hwf) as (a0 & a1 & a2 & a3 & ->).
  split; [reflexivity|]. split; [revert i Hi; apply lane_cases4; reflexivity|].
  split; [reflexivity|]. split; [revert i Hi; apply lane_cases4; reflexivity|].
  vm_compute. reflexivity.
Qed.

End TranslationUnit.

(* ================================================================== *)
(** ** The scenarios of the specification *)

(** The sine of 0, -0, pi/2, pi, 3pi/2, 1, -1 and 1000: 0, -0, 1, -8.7e-8,
    -1, 0.84147096, -0.84147102 and 0.82687950, with and without FMA. *)
Example psin_scenario :
  psin cfg_fast sample_angles =
    [0; 0x80000000; 0x3F800000; 0xB3BBBD2F; 0xBF800000; 0x3F576AA4; 0xBF576AA5; 0x3F53AE60]
  /\ psin cfg_fast_plain sample_angles = psin cfg_fast sample_angles.
Proof. vm_compute. split; reflexivity. Qed.

(** The fast reciprocal square root of 4, 1, 0, -1, -inf, +inf, -0 and the
    smallest denormal. *)
Example prsqrt_fast_scenario :
  prsqrt rsqrtss_reference cfg_fast sample_roots =
    [0x3F000000; 0x3F800000; 0x7F800000; 0x7FC00000;
     0xFFC00000; 0xFFC00000; 0x7F800000; 0x7F800000].
Proof. vm_compute. reflexivity. Qed.

(** The fast and the exact square root of the same packet. *)
Example psqrt_scenario :
  psqrt rsqrtss_reference cfg_fast sample_roots =
    [0x40000000; 0x3F800000; 0; 0xFFC00000; 0xFFC00000; 0xFFC00000; 0; 0]
  /\ psqrt rsqrtss_reference cfg_exact sample_roots =
    [0x40000000; 0x3F800000; 0; 0xFFC00000; 0xFFC00000; 0x7F800000; 0x80000000; 0x1A3504F3].
Proof. vm_compute. split; reflexivity. Qed.

(** The square root and the reciprocal square root of 4, 1, 0 and -1 in
    double precision. *)
Example double_scenario :
  psqrt_Packet4d sample_doubles =
    [0x4000000000000000; 0x3FF0000000000000; 0; 0xFFF8000000000000]
  /\ prsqrt_Packet4d sample_doubles =
    [0x3FE0000000000000; 0x3FF0000000000000; 0x7FF0000000000000; 0xFFF8000000000000].
Proof. vm_compute. split; reflexivity. Qed.

(** The fast paths exist for single precision only: the flag changes the
    square root of a packet of floats. *)
Example fast_math_changes_single_precision :
  psqrt rsqrtss_reference cfg_fast sample_roots
  <> psqrt rsqrtss_reference cfg_exact sample_roots.
Proof. vm_compute. discriminate. Qed.

(* ================================================================== *)
(** ** The claims on concrete packets *)

(** Claim C1 as first stated fails on a lane that holds minus infinity: the
    input is below zero and the lane returned is not 0x7fc00000, with and
    without FMA. *)
Lemma prsqrt_neg_inf_counterexample :
  wf_Packet8f sample_roots = true /\
  lane 4 sample_roots = 0xFF800000 /\
  lt_oq 24 8 (lane 4 sample_roots) 0 = true /\
  lane 4 (prsqrt rsqrtss_reference cfg_fast sample_roots) <> 0x7fc00000 /\
  lane 4 (prsqrt rsqrtss_reference cfg_fast_plain sample_roots) <> 0x7fc00000.
Proof. vm_compute. repeat split; discriminate. Qed.

Lemma prsqrt_fast_lanes_witness :
  ((forall a, is_u32 a = true -> is_u32 (rsqrtss_reference a) = true) /\
   EIGEN_FAST_MATH cfg_fast = true /\ wf_Packet8f sample_roots = true /\ (3 < 8)%nat) /\
  (let t := prsqrt_fast_body rsqrtss_reference cfg_fast sample_roots in
   lt_oq 24 8 (lane 3 sample_roots) 0 = true -> lane 3 sample_roots <> 0xFF800000 ->
   lane 3 (rsqrt_x t) = 0 /\ lane 3 (rsqrt_infs_and_nans t) = 0x7fc00000 /\
   lane 3 (prsqrt rsqrtss_reference cfg_fast sample_roots) = 0x7fc00000).
Proof.
  split; [repeat split; solve [exact rsqrtss_reference_range | reflexivity | lia]|].
  exact (proj1 (proj2
    (prsqrt_fast_lanes rsqrtss_reference rsqrtss_reference_range cfg_fast sample_roots 3
       ltac:(reflexivity) ltac:(reflexivity) ltac:(lia)))).
Defined.

(** Claim C2 as first stated fails in a build without FMA.  On the lane that
    holds 355 (shift 113) the third step rounds its product before the sum:
    the reduced [x] and [z] of the code are not those of the three fused
    multiply-adds. *)
Lemma psin_reduction_counterexample :
  wf_Packet8f sample_plain = true /\
  FMA cfg_fast_plain = false /\
  lane 0 sample_plain = 0x43B18000 /\
  lane 0 (sin_shift (psin_body cfg_fast_plain sample_plain)) = 0x42E20000 /\
  lane 0 (sin_x (psin_body cfg_fast_plain sample_plain)) = 0x37FCDE84 /\
  sin_reduced_x_fused (lane 0 sample_plain) = 0x37FCDE82 /\
  lane 0 (sin_x (psin_body cfg_fast_plain sample_plain)) <>
    sin_reduced_x_fused (lane 0 sample_plain) /\
  lane 0 (sin_z (psin_body cfg_fast_plain sample_plain)) <>
    mulss (sin_reduced_x_fused (lane 0 sample_plain)) f_four_over_pi /\
  lane 0 (psin cfg_fast_plain sample_plain) <> lane 0 (psin cfg_fast sample_plain).
Proof. vm_compute. repeat split; discriminate. Qed.

Lemma psin_range_reduction_witness :
  (wf_Packet8f sample_plain = true /\ (0 < 8)%nat) /\
  (let t := psin_body cfg_fast_plain sample_plain in
   let v := lane 0 sample_plain in
   let shift := roundss_floor (addss (mulss v f_one_over_pi) f_one_over_four) in
   let x1 := maddss cfg_fast_plain shift f_neg_pi_first v in
   let x2 := maddss cfg_fast_plain shift f_neg_pi_second x1 in
   let x3 := maddss cfg_fast_plain shift f_neg_pi_third x2 in
   let y1 := addss (mulss shift f_neg_pi_first) v in
   let y2 := addss (mulss shift f_neg_pi_second) y1 in
   let y3 := addss (mulss shift f_neg_pi_third) y2 in
   (lane 0 (sin_shift t) = shift /\
    lane 0 (sin_x t) = x3 /\
    lane 0 (sin_z t) = mulss x3 f_four_over_pi) /\
   lane 0 (sin_x t) = y3).
Proof.
  split; [split; [reflexivity|lia]|].
  split.
  - exact (proj1 (psin_range_reduction cfg_fast_plain sample_plain 0
                    ltac:(reflexivity) ltac:(lia))).
  - exact (proj2 (proj1 (proj2 (psin_range_reduction cfg_fast_plain sample_plain 0
                                  ltac:(reflexivity) ltac:(lia))))
             ltac:(reflexivity)).
Defined.

(** Claim C3 as first stated fails in a build without FMA.  The lane that
    holds 0.6875 takes the left branch and the lane that holds 4.5 the right
    one, and in both the result before the sign flip is not the polynomial
    evaluated with fused multiply-adds at the [z] of that lane. *)
Lemma psin_polynomial_counterexample :
  wf_Packet8f sample_plain = true /\
  FMA cfg_fast_plain = false /\
  (gt_oq 24 8 (lane 1 (sin_z (psin_body cfg_fast_plain sample_plain))) f_one = false /\
   lane 1 (sin_res (psin_body cfg_fast_plain sample_plain)) = 0x3F22759C /\
   sin_poly_left_fused (lane 1 (sin_z (psin_body cfg_fast_plain sample_plain))) = 0x3F22759B /\
   lane 1 (sin_res (psin_body cfg_fast_plain sample_plain)) <>
     sin_poly_left_fused (lane 1 (sin_z (psin_body cfg_fast_plain sample_plain)))) /\
  (gt_oq 24 8 (lane 3 (sin_z (psin_body cfg_fast_plain sample_plain))) f_one = true /\
   lane 3 (sin_res (psin_body cfg_fast_plain sample_plain)) = 0x3F7A3F6A /\
   sin_poly_right_fused (lane 3 (sin_z (psin_body cfg_fast_plain sample_plain))) = 0x3F7A3F6B /\
   lane 3 (sin_res (psin_body cfg_fast_plain sample_plain)) <>
     sin_poly_right_fused (lane 3 (sin_z (psin_body cfg_fast_plain sample_plain)))).
Proof. vm_compute. repeat split; discriminate. Qed.

Lemma psin_interval_select_witness :
  (wf_Packet8f sample_plain = true /\ (3 < 8)%nat) /\
  (let t := psin_body cfg_fast_plain sample_plain in
   let z := sin_reduced_z cfg_fast_plain (lane 3 sample_plain) in
   let right := sin_poly_right cfg_fast_plain z in
   let left := sin_poly_left cfg_fast_plain z in
   (lane 3 (sin_z t) = z /\
    lane 3 (sin_ival_mask t) = (if gt_oq 24 8 z f_one then 0xFFFFFFFF else 0) /\
    lane 3 (sin_right t) = right /\
    lane 3 (sin_left t) = left) /\
   lane 3 (sin_res t) = (if gt_oq 24 8 z f_one then right else left) /\
   lane 3 (psin cfg_fast_plain sample_plain) =
     Z.lxor (lane 3 (sin_res t)) (lane 3 (sin_sign_flip_mask t))).
Proof.
  split; [split; [reflexivity|lia]|].
  pose proof (psin_interval_select cfg_fast_plain sample_plain 3
                ltac:(reflexivity) ltac:(lia)) as (H1 & _ & H3 & H4 & _).
  exact (conj H1 (conj H3 H4)).
Defined.

Lemma psin_sign_flip_witness :
  (wf_Packet8f sample_angles = true /\ (3 < 8)%nat) /\
  (let t := psin_body cfg_fast sample_angles in
   let v := lane 3 sample_angles in
   let shift := sin_shift_of v in
   let n := cvtss2si shift in
   let m := Z.land (Z.shiftl (Z.land n 1) 31) 0xFFFFFFFF in
   let z := sin_reduced_z cfg_fast v in
   let res := if gt_oq 24 8 z f_one then sin_poly_right cfg_fast z else sin_poly_left cfg_fast z in
   let y := lane 3 (psin cfg_fast sample_angles) in
   (lane 3 (sin_shift t) = shift /\
    lane 3 (sin_shift_ints t) = n /\
    lane 3 (sin_sign_flip_mask t) = m /\
    lane 3 (sin_res t) = res) /\
   Z.odd n = odd_integer shift /\
   m = (if odd_integer shift then 0x80000000 else 0) /\
   y = Z.lxor res m /\
   Z.testbit y 31 = xorb (Z.testbit res 31) (odd_integer shift) /\
   (forall j, j <> 31 -> Z.testbit y j = Z.testbit res j)).
Proof.
  split; [split; [reflexivity|lia]|].
  exact (psin_sign_flip cfg_fast sample_angles 3 ltac:(reflexivity) ltac:(lia)).
Defined.

Lemma psqrt_fast_lanes_witness :
  ((forall a, is_u32 a = true -> is_u32 (rsqrtss_reference a) = true) /\
   EIGEN_FAST_MATH cfg_fast = true /\ wf_Packet8f sample_roots = true /\ (7 < 8)%nat) /\
  (lt_oq 24 8 (lane 7 sample_roots) numeric_limits_float_min
     && ge_oq 24 8 (lane 7 sample_roots) 0 = true ->
   lane 7 (psqrt rsqrtss_reference cfg_fast sample_roots) = 0).
Proof.
  split; [repeat split; solve [exact rsqrtss_reference_range | reflexivity | lia]|].
  exact (proj1
    (psqrt_fast_lanes rsqrtss_reference rsqrtss_reference_range cfg_fast sample_roots 7
       ltac:(reflexivity) ltac:(reflexivity) ltac:(lia))).
Defined.

Lemma psqrt_fast_infinity_witness :
  ((forall a, is_u32 a = true -> is_u32 (rsqrtss_reference a) = true) /\
   EIGEN_FAST_MATH cfg_fast = true /\ rsqrtss_reference 0x7F800000 = 0 /\
   wf_Packet8f sample_roots = true /\ (5 < 8)%nat /\
   lane 5 sample_roots = 0x7F800000) /\
  (lane 5 (psqrt rsqrtss_reference cfg_fast sample_roots) = 0xFFC00000 /\
   lane 5 (psqrt rsqrtss_reference cfg_fast sample_roots) <> 0x7F800000 /\
   lane 5 (psqrt_exact sample_roots) = 0x7F800000).
Proof.
  split;
    [repeat split; solve [exact rsqrtss_reference_range | vm_compute; reflexivity | lia]|].
  exact (proj2 (proj2
    (psqrt_fast_infinity rsqrtss_reference rsqrtss_reference_range cfg_fast sample_roots 5
       ltac:(reflexivity) ltac:(vm_compute; reflexivity) ltac:(reflexivity) ltac:(lia)
       ltac:(reflexivity)))).
Defined.

Lemma double_precision_exact_witness :
  (wf_Packet4d sample_doubles = true /\ (0 < 4)%nat) /\
  (let unit :=
     build rsqrtss_reference (fun p => p) (fun p => p) (fun p => p) (fun p => p) cfg_fast in
   mf_psqrt_4d unit sample_doubles = _mm256_sqrt_pd sample_doubles /\
   lane 0 (mf_psqrt_4d unit sample_doubles) = sqrtsd (lane 0 sample_doubles) /\
   mf_prsqrt_4d unit sample_doubles =
     _mm256_div_pd (pset1_4d d_one) (_mm256_sqrt_pd sample_doubles) /\
   lane 0 (mf_prsqrt_4d unit sample_doubles) = divsd d_one (sqrtsd (lane 0 sample_doubles)) /\
   exactly 53 11 d_one 1 1 = true).
Proof.
  split; [split; [reflexivity|lia]|].
  exact (double_precision_exact rsqrtss_reference (fun p => p) (fun p => p) (fun p => p)
           (fun p => p) cfg_fast sample_doubles 0 ltac:(reflexivity) ltac:(lia)).
Defined.

Lemma psin_zero_witness :
  (wf_Packet8f sample_angles = true /\ (0 < 8)%nat /\
   (lane 0 sample_angles = 0 \/ lane 0 sample_angles = 0x80000000)) /\
  (let t := psin_body cfg_fast sample_angles in
   lane 0 (sin_shift t) = 0 /\
   lane 0 (sin_x t) = lane 0 sample_angles /\
   lane 0 (sin_z t) = lane 0 sample_angles /\
   lane 0 (sin_sign_flip_mask t) = 0 /\
   lane 0 (sin_ival_mask t) = 0 /\
   lane 0 (sin_res t) = sin_poly_left cfg_fast (lane 0 sample_angles) /\
   lane 0 (psin cfg_fast sample_angles) = lane 0 sample_angles /\
   (lane 0 sample_angles = 0 -> lane 0 (psin cfg_fast sample_angles) = 0)).
Proof.
  split; [split; [reflexivity|split; [lia|left; reflexivity]]|].
  exact (psin_zero cfg_fast sample_angles 0 ltac:(reflexivity) ltac:(lia)
           (or_introl eq_refl)).
Defined.

Lemma psqrt_fast_negative_zero_witness :
  ((forall a, is_u32 a = true -> is_u32 (rsqrtss_reference a) = true) /\
   EIGEN_FAST_MATH cfg_fast = true /\ wf_Packet8f sample_roots = true /\ (6 < 8)%nat /\
   lane 6 sample_roots = 0x80000000) /\
  (lt_oq 24 8 (lane 6 sample_roots) numeric_limits_float_min = true /\
   ge_oq 24 8 (lane 6 sample_roots) 0 = true /\
   lane 6 (psqrt rsqrtss_reference cfg_fast sample_roots) = 0 /\
   lane 6 (psqrt_exact sample_roots) = 0x80000000).
Proof.
  split; [repeat split; solve [exact rsqrtss_reference_range | reflexivity | lia]|].
  exact (psqrt_fast_negative_zero rsqrtss_reference rsqrtss_reference_range cfg_fast
           sample_roots 6 ltac:(reflexivity) ltac:(reflexivity) ltac:(lia)
           ltac:(reflexivity)).
Defined.

(* ================================================================== *)
(** ** Further properties of the kernels *)

(** *** The lane shift *)

Lemma slli32_value n v :
  0 <= n -> slli32 n v = if n <=? 31 then (v * 2 ^ n) mod 2 ^ 32 else 0.
Proof.
  intros Hn. unfold slli32.
  destruct (Z.ltb_spec 31 n), (Z.leb_spec n 31); try lia.
  change 0xFFFFFFFF with (Z.ones 32).
  rewrite Z.land_ones, Z.shiftl_mul_pow2 by lia. reflexivity.
Qed.

Lemma slli32_range n v : 0 <= slli32 n v < 2 ^ 32.
Proof.
  unfold slli32. destruct (31 <? n); [lia|].
  change 0xFFFFFFFF with (Z.ones 32). apply (land_ones_range 32). lia.
Qed.

Lemma slli32_compose a b v :
  0 <= a -> 0 <= b -> slli32 b (slli32 a v) = slli32 (a + b) v.
Proof.
  intros Ha Hb. rewrite !slli32_value by lia.
  destruct (Z.leb_spec a 31), (Z.leb_spec b 31), (Z.leb_spec (a + b) 31); try lia;
    try reflexivity.
  - rewrite Z.mul_mod_idemp_l by lia. rewrite Z.pow_add_r by lia. f_equal. ring.
  - rewrite Z.mul_mod_idemp_l by lia.
    replace (v * 2 ^ a * 2 ^ b) with (v * 2 ^ (a + b - 32) * 2 ^ 32).
    + apply Z.mod_mul. lia.
    + rewrite <- !Z.mul_assoc, <- !Z.pow_add_r by lia. do 2 f_equal. lia.
Qed.

Lemma slli32_zero v : 0 <= v < 2 ^ 32 -> slli32 0 v = v.
Proof.
  intros Hv. rewrite slli32_value by lia. cbn [Z.leb Z.compare].
  rewrite Z.pow_0_r, Z.mul_1_r. apply Z.mod_small. assumption.
Qed.

Lemma wf_Packet8f_intro a0 a1 a2 a3 a4 a5 a6 a7 :
  0 <= a0 < 2 ^ 32 -> 0 <= a1 < 2 ^ 32 -> 0 <= a2 < 2 ^ 32 -> 0 <= a3 < 2 ^ 32 ->
  0 <= a4 < 2 ^ 32 -> 0 <= a5 < 2 ^ 32 -> 0 <= a6 < 2 ^ 32 -> 0 <= a7 < 2 ^ 32 ->
  wf_Packet8f [a0; a1; a2; a3; a4; a5; a6; a7] = true.
Proof.
  intros. unfold wf_Packet8f. cbn [length Nat.eqb forallb].
  rewrite !andb_true_iff, !is_u32_spec. tauto.
Qed.

(** Property X1.  [pshiftleft] computes the same packet on its AVX2 path
    and on the path that shifts the two 128-bit halves: every lane is
    shifted left with wrap-around at 32 bits, and is zero for a count above
    31.  The result is again a packet of eight 32-bit lanes. *)
Theorem pshiftleft_wraps cfg cfg' v n i :
  wf_Packet8f v = true -> 0 <= n -> (i < 8)%nat ->
  pshiftleft cfg v n = pshiftleft cfg' v n /\
  lane i (pshiftleft cfg v n) =
    (if n <=? 31 then (lane i v * 2 ^ n) mod 2 ^ 32 else 0) /\
  wf_Packet8f (pshiftleft cfg v n) = true.
Proof.
  intros Hwf Hn Hi.
  destruct (wf_Packet8f_inv v Hwf)
    as (a0 & a1 & a2 & a3 & a4 & a5 & a6 & a7 & -> & _).
  rewrite !pshiftleft_lanes by reflexivity.
  split; [reflexivity|]. split.
  - revert i Hi. apply lane_cases; cbv [lane nth map]; apply slli32_value; assumption.
  - cbv [map]. apply wf_Packet8f_intro; apply slli32_range.
Qed.

(** Property X2.  Shifts compose: shifting by [a] and then by [b] is
    shifting by [a + b], and shifting by 0 returns the packet. *)
Theorem pshiftleft_compose cfg v a b :
  wf_Packet8f v = true -> 0 <= a -> 0 <= b ->
  pshiftleft cfg (pshiftleft cfg v a) b = pshiftleft cfg v (a + b) /\
  pshiftleft cfg v 0 = v.
Proof.
  intros Hwf Ha Hb.
  destruct (wf_Packet8f_inv v Hwf)
    as (a0 & a1 & a2 & a3 & a4 & a5 & a6 & a7 & -> & (R0 & R1 & R2 & R3) & (R4 & R5 & R6 & R7)).
  rewrite (pshiftleft_lanes cfg _ a), (pshiftleft_lanes cfg _ (a + b)),
          (pshiftleft_lanes cfg _ 0) by reflexivity.
  rewrite pshiftleft_lanes by reflexivity.
  cbv [map]. rewrite !slli32_compose, !slli32_zero by assumption. split; reflexivity.
Qed.

(** *** A NaN operand is returned quieted *)

Lemma is_nan_quiet a : is_nan 24 8 a = true -> is_nan 24 8 (quiet 24 a) = true.
Proof. intros H. apply decode_nan, decode_quiet_nan, H. Qed.

Lemma quiet_idem a : quiet 24 (quiet 24 a) = quiet 24 a.
Proof. unfold quiet. rewrite <- Z.lor_assoc, Z.lor_diag. reflexivity. Qed.

Lemma lift1_nan f a : is_nan 24 8 a = true -> lift1 24 8 f a = quiet 24 a.
Proof. intros H. unfold lift1. rewrite H. reflexivity. Qed.

Lemma lift2_nan_l f a b : is_nan 24 8 a = true -> lift2 24 8 f a b = quiet 24 a.
Proof. intros H. unfold lift2. rewrite H. reflexivity. Qed.

Lemma lift2_nan_r f a b :
  is_nan 24 8 a = false -> is_nan 24 8 b = true -> lift2 24 8 f a b = quiet 24 b.
Proof. intros Ha Hb. unfold lift2. rewrite Ha, Hb. reflexivity. Qed.

Lemma maddss_nan_a cfg a b c : is_nan 24 8 a = true -> maddss cfg a b c = quiet 24 a.
Proof.
  intros H. unfold maddss. destruct (FMA cfg).
  - unfold vfmaddss, lift3. rewrite H. reflexivity.
  - unfold addss, mulss. rewrite (lift2_nan_l _ a b H).
    rewrite lift2_nan_l by (apply is_nan_quiet; assumption). apply quiet_idem.
Qed.

Lemma maddss_nan_b cfg a b c :
  is_nan 24 8 a = false -> is_nan 24 8 b = true -> maddss cfg a b c = quiet 24 b.
Proof.
  intros Ha Hb. unfold maddss. destruct (FMA cfg).
  - unfold vfmaddss, lift3. rewrite Ha, Hb. reflexivity.
  - unfold addss, mulss. rewrite (lift2_nan_r _ a b Ha Hb).
    rewrite lift2_nan_l by (apply is_nan_quiet; assumption). apply quiet_idem.
Qed.

Lemma nan_unordered a b p : is_nan 24 8 a = true -> cmpss a b p = 0.
Proof.
  intros H. apply decode_nan in H. unfold cmpss, lt_oq, ge_oq, gt_oq. rewrite H.
  destruct p; cbv [SFltb SFleb SFcompare]; destruct (decode 24 8 b); reflexivity.
Qed.

Lemma cvtss2si_nan a : is_nan 24 8 a = true -> cvtss2si a = 0x80000000.
Proof.
  intros H. apply decode_nan in H. unfold cvtss2si, to_int_pattern. rewrite H. reflexivity.
Qed.

(** The sine of a NaN lane, step by step. *)
Lemma psin_lane_nan cfg v :
  is_nan 24 8 v = true ->
  let q := quiet 24 v in
  sin_shift_of v = q /\ sin_reduced_z cfg v = q /\
  sin_poly_left cfg q = q /\ cmpss q f_one _CMP_GT_OQ = 0 /\
  slli32 31 (Z.land (cvtss2si q) 1) = 0.
Proof.
  intros Hv q.
  assert (Hq : is_nan 24 8 q = true) by (apply is_nan_quiet; assumption).
  assert (Qq : quiet 24 q = q) by apply quiet_idem.
  assert (Es : sin_shift_of v = q).
  { unfold sin_shift_of, roundss_floor, addss, mulss.
    rewrite (lift2_nan_l _ v _ Hv). fold q.
    rewrite (lift2_nan_l _ q _ Hq), Qq. rewrite (lift1_nan _ q Hq). exact Qq. }
  assert (Ez : sin_reduced_z cfg v = q).
  { unfold sin_reduced_z, sin_reduced_x. rewrite Es.
    rewrite !(maddss_nan_a cfg q) by exact Hq. rewrite Qq.
    unfold mulss. rewrite (lift2_nan_l _ q _ Hq). exact Qq. }
  split; [exact Es|]. split; [exact Ez|]. split; [|split].
  - unfold sin_poly_left.
    assert (Ew : mulss q q = q) by (unfold mulss; rewrite (lift2_nan_l _ q _ Hq); exact Qq).
    cbv zeta. rewrite Ew.
    rewrite (maddss_nan_b cfg f_coeff_left_7 q) by (exact Hq || (vm_compute; reflexivity)).
    rewrite Qq. repeat (rewrite (maddss_nan_a cfg q) by exact Hq; rewrite Qq). exact Ew.
  - apply nan_unordered. exact Hq.
  - rewrite (cvtss2si_nan q Hq). reflexivity.
Qed.

Lemma psin_lanes cfg x :
  wf_Packet8f x = true -> psin cfg x = map (psin_lane cfg) x.
Proof.
  intros Hwf.
  destruct (wf_Packet8f_inv x Hwf)
    as (a0 & a1 & a2 & a3 & a4 & a5 & a6 & a7 & -> & _).
  cbv [psin_lane]. sin_cbv. rewrite pshiftleft_lanes by reflexivity. sin_cbv. reflexivity.
Qed.

Lemma psqrt_lanes rsqrtss cfg x :
  wf_Packet8f x = true -> psqrt rsqrtss cfg x = map (psqrt_lane rsqrtss cfg) x.
Proof.
  intros Hwf.
  destruct (wf_Packet8f_inv x Hwf)
    as (a0 & a1 & a2 & a3 & a4 & a5 & a6 & a7 & -> & _).
  unfold psqrt, psqrt_lane. destruct (EIGEN_FAST_MATH cfg);
    cbv [psqrt_fast psqrt_exact]; packet_cbv; reflexivity.
Qed.

Lemma prsqrt_lanes rsqrtss cfg x :
  wf_Packet8f x = true -> prsqrt rsqrtss cfg x = map (prsqrt_lane rsqrtss cfg) x.
Proof.
  intros Hwf.
  destruct (wf_Packet8f_inv x Hwf)
    as (a0 & a1 & a2 & a3 & a4 & a5 & a6 & a7 & -> & _).
  unfold prsqrt, prsqrt_lane. destruct (EIGEN_FAST_MATH cfg);
    cbv [prsqrt_fast prsqrt_fast_body rsqrt_return prsqrt_exact prsqrt_lane_code fst snd];
    packet_cbv; reflexivity.
Qed.

Lemma lane_map f x i :
  wf_Packet8f x = true -> (i < 8)%nat -> lane i (map f x) = f (lane i x).
Proof.
  intros Hwf Hi.
  destruct (wf_Packet8f_inv x Hwf)
    as (a0 & a1 & a2 & a3 & a4 & a5 & a6 & a7 & -> & _).
  revert i Hi. apply lane_cases; reflexivity.
Qed.

Lemma lane_range x i :
  wf_Packet8f x = true -> (i < 8)%nat -> 0 <= lane i x < 2 ^ 32.
Proof.
  intros Hwf Hi.
  destruct (wf_Packet8f_inv x Hwf)
    as (a0 & a1 & a2 & a3 & a4 & a5 & a6 & a7 & -> & (R0 & R1 & R2 & R3) & (R4 & R5 & R6 & R7)).
  revert i Hi. apply lane_cases; assumption.
Qed.

Lemma wf_map f x :
  wf_Packet8f x = true ->
  (forall v, 0 <= v < 2 ^ 32 -> 0 <= f v < 2 ^ 32) ->
  wf_Packet8f (map f x) = true.
Proof.
  intros Hwf Hf.
  destruct (wf_Packet8f_inv x Hwf)
    as (a0 & a1 & a2 & a3 & a4 & a5 & a6 & a7 & -> & (R0 & R1 & R2 & R3) & (R4 & R5 & R6 & R7)).
  cbv [map]. apply wf_Packet8f_intro; apply Hf; assumption.
Qed.

Lemma cmpss_range a b p : 0 <= cmpss a b p < 2 ^ 32.
Proof.
  destruct (cmpss_cases a b p) as [-> | ->]; apply const_range; vm_compute; reflexivity.
Qed.

Lemma psin_lane_range cfg v : 0 <= v < 2 ^ 32 -> 0 <= psin_lane cfg v < 2 ^ 32.
Proof.
  intros Hv. unfold psin_lane. pose proof (sin_reduced_z_range cfg v Hv) as Hz.
  apply lxor_range; [lia| |apply slli32_range].
  apply lor_range; [lia| |]; apply land_range_r; try lia.
  - apply sin_poly_left_range. assumption.
  - apply sin_poly_right_range. assumption.
Qed.

Lemma psqrt_lane_range rsqrtss cfg v :
  (forall a, is_u32 a = true -> is_u32 (rsqrtss a) = true) ->
  0 <= v < 2 ^ 32 -> 0 <= psqrt_lane rsqrtss cfg v < 2 ^ 32.
Proof.
  intros Hr Hv. unfold psqrt_lane. destruct (EIGEN_FAST_MATH cfg).
  - apply land_range_r; [lia|].
    apply sqrt_newton_range; [apply (rsqrtss_u32 rsqrtss Hr)|]; assumption.
  - apply lift1_range. assumption.
Qed.

Lemma prsqrt_lane_range rsqrtss cfg v :
  (forall a, is_u32 a = true -> is_u32 (rsqrtss a) = true) ->
  0 <= v < 2 ^ 32 -> 0 <= prsqrt_lane rsqrtss cfg v < 2 ^ 32.
Proof.
  intros Hr Hv. unfold prsqrt_lane. destruct (EIGEN_FAST_MATH cfg).
  - pose proof (rsqrtss_u32 rsqrtss Hr v Hv) as Hx.
    unfold prsqrt_lane_code. cbn [fst snd].
    assert (Hm : 0 <= Z.land (Z.lnot (cmpss v 8388608 _CMP_LT_OQ)) (rsqrtss v) < 2 ^ 32)
      by (apply land_range_r; [lia|assumption]).
    apply lor_range; [lia| |].
    + u32.
    + apply lor_range; [lia| |]; apply land_range_r; lia.
  - apply lift2_range; [apply const_range; vm_compute; reflexivity|].
    apply lift1_range. assumption.
Qed.

Lemma prsqrt_exact_lane x i :
  wf_Packet8f x = true -> (i < 8)%nat ->
  lane i (prsqrt_exact x) = divss f_one (sqrtss (lane i x)).
Proof.
  intros Hwf Hi.
  destruct (wf_Packet8f_inv x Hwf)
    as (a0 & a1 & a2 & a3 & a4 & a5 & a6 & a7 & -> & _).
  revert i Hi. apply lane_cases; reflexivity.
Qed.

Section LaneKernels.
Variable rsqrtss : Z -> Z.

(** Property X3.  The kernels act lane by lane: lane [i] of the sine, of the
    square root and of the reciprocal square root depends on lane [i] of the
    argument only, in every build. *)
Theorem kernels_lanewise cfg x y i :
  wf_Packet8f x = true -> wf_Packet8f y = true -> (i < 8)%nat ->
  lane i x = lane i y ->
  lane i (psin cfg x) = lane i (psin cfg y) /\
  lane i (psqrt rsqrtss cfg x) = lane i (psqrt rsqrtss cfg y) /\
  lane i (prsqrt rsqrtss cfg x) = lane i (prsqrt rsqrtss cfg y).
Proof.
  intros Hx Hy Hi E.
  rewrite !psin_lanes, !psqrt_lanes, !prsqrt_lanes by assumption.
  rewrite !lane_map by assumption. rewrite E. repeat split; reflexivity.
Qed.

(** Property X4.  The kernels return packets of eight 32-bit lanes, as long
    as the hardware estimate returns 32-bit patterns. *)
Theorem kernels_keep_packets cfg x :
  (forall a, is_u32 a = true -> is_u32 (rsqrtss a) = true) ->
  wf_Packet8f x = true ->
  wf_Packet8f (psin cfg x) = true /\
  wf_Packet8f (psqrt rsqrtss cfg x) = true /\
  wf_Packet8f (prsqrt rsqrtss cfg x) = true.
Proof.
  intros Hr Hx. rewrite psin_lanes, psqrt_lanes, prsqrt_lanes by assumption.
  split; [|split]; apply wf_map; try assumption.
  - intros v Hv. apply psin_lane_range. assumption.
  - intros v Hv. apply psqrt_lane_range; assumption.
  - intros v Hv. apply prsqrt_lane_range; assumption.
Qed.

(** Property X6.  The square root of a NaN lane is that NaN, quieted, in
    exact and in fast mode and whatever the hardware estimate: the ordered
    comparisons of the flush are false on a NaN and the last product has the
    input as its first operand. *)
Theorem psqrt_nan cfg x i :
  wf_Packet8f x = true -> (i < 8)%nat ->
  is_nan 24 8 (lane i x) = true ->
  lane i (psqrt rsqrtss cfg x) = quiet 24 (lane i x) /\
  is_nan 24 8 (lane i (psqrt rsqrtss cfg x)) = true.
Proof.
  intros Hx Hi Hn.
  assert (E : lane i (psqrt rsqrtss cfg x) = quiet 24 (lane i x)).
  { rewrite psqrt_lanes, lane_map by assumption. unfold psqrt_lane.
    destruct (EIGEN_FAST_MATH cfg).
    - rewrite (nan_unordered _ _ _CMP_LT_OQ Hn), Z.land_0_l, andnot_zero.
      apply lift2_nan_l. assumption.
    - apply lift1_nan. assumption. }
  split; [exact E|]. rewrite E. apply is_nan_quiet. assumption.
Qed.

(** Property X7.  The reciprocal square root of a NaN lane is a NaN: the
    input quieted, or in fast mode the hardware estimate quieted when that
    is a NaN itself.  The fast mode inserts no special value in such a
    lane. *)
Theorem prsqrt_nan cfg x i :
  wf_Packet8f x = true -> (i < 8)%nat ->
  is_nan 24 8 (lane i x) = true ->
  let v := lane i x in
  lane i (prsqrt rsqrtss cfg x) =
    (if EIGEN_FAST_MATH cfg && is_nan 24 8 (rsqrtss v) then quiet 24 (rsqrtss v)
     else quiet 24 v) /\
  is_nan 24 8 (lane i (prsqrt rsqrtss cfg x)) = true.
Proof.
  intros Hx Hi Hn v. fold v in Hn.
  assert (Hq : is_nan 24 8 (quiet 24 v) = true) by (apply is_nan_quiet; assumption).
  assert (E : lane i (prsqrt rsqrtss cfg x) =
              if EIGEN_FAST_MATH cfg && is_nan 24 8 (rsqrtss v) then quiet 24 (rsqrtss v)
              else quiet 24 v).
  { rewrite prsqrt_lanes, lane_map by assumption. fold v. unfold prsqrt_lane.
    destruct (EIGEN_FAST_MATH cfg); cbn [andb].
    - unfold prsqrt_lane_code. cbn [fst snd].
      rewrite !(nan_unordered v _ _CMP_LT_OQ Hn).
      rewrite !andnot_zero, !Z.land_0_l, Z.lor_0_r.
      replace (mulss v f_minus_half) with (quiet 24 v)
        by (symmetry; apply lift2_nan_l; assumption).
      rewrite (maddss_nan_a cfg (quiet 24 v)) by assumption. rewrite quiet_idem.
      destruct (is_nan 24 8 (rsqrtss v)) eqn:Hx0.
      + apply lift2_nan_l. assumption.
      + unfold mulss. rewrite (lift2_nan_r _ _ _ Hx0 Hq). apply quiet_idem.
    - unfold divss, sqrtss. rewrite (lift1_nan _ v Hn).
      rewrite lift2_nan_r by (assumption || (vm_compute; reflexivity)).
      apply quiet_idem. }
  split; [exact E|]. rewrite E.
  destruct (EIGEN_FAST_MATH cfg && is_nan 24 8 (rsqrtss v)) eqn:Hc; [|exact Hq].
  apply andb_true_iff in Hc. apply is_nan_quiet. tauto.
Qed.

(** Property X10.  In fast mode the reciprocal square root of plus infinity
    is a NaN, where the division returns +0: plus infinity is in neither
    special class, and with the hardware estimate of plus infinity, +0, the
    Newton step multiplies an infinity by zero. *)
Theorem prsqrt_fast_infinity cfg x i :
  EIGEN_FAST_MATH cfg = true -> rsqrtss 0x7F800000 = 0 ->
  wf_Packet8f x = true -> (i < 8)%nat ->
  lane i x = 0x7F800000 ->
  lane i (prsqrt rsqrtss cfg x) = 0xFFC00000 /\
  lane i (prsqrt_exact x) = 0.
Proof.
  intros Hfast Hest Hx Hi Hv. split.
  - rewrite prsqrt_lanes, lane_map by assumption. unfold prsqrt_lane.
    rewrite Hfast, Hv, Hest. unfold prsqrt_lane_code, maddss.
    destruct (FMA cfg); vm_compute; reflexivity.
  - rewrite (prsqrt_exact_lane x i Hx Hi), Hv. vm_compute. reflexivity.
Qed.

(** Property X12.  The fast square root does nothing special for a lane
    below zero: the lane is [input * x1], and it is a NaN only through the
    hardware estimate, whose NaN is returned quieted. *)
Theorem psqrt_fast_negative cfg x i :
  EIGEN_FAST_MATH cfg = true -> wf_Packet8f x = true -> (i < 8)%nat ->
  lt_oq 24 8 (lane i x) 0 = true ->
  let v := lane i x in
  lane i (psqrt rsqrtss cfg x) = mulss v (sqrt_newton (rsqrtss v) v) /\
  (is_nan 24 8 (rsqrtss v) = true ->
   lane i (psqrt rsqrtss cfg x) = quiet 24 (rsqrtss v)).
Proof.
  intros Hfast Hx Hi Hneg v. fold v in Hneg.
  assert (Hge : cmpss v 0 _CMP_GE_OQ = 0).
  { unfold cmpss, ge_oq. destruct (negative_class v Hneg) as [E|(m & e & E)];
      rewrite E, decode_zero; reflexivity. }
  assert (Hnn : is_nan 24 8 v = false).
  { apply decode_not_nan. destruct (negative_class v Hneg) as [E|(m & e & E)];
      rewrite E; discriminate. }
  assert (E : lane i (psqrt rsqrtss cfg x) = mulss v (sqrt_newton (rsqrtss v) v)).
  { rewrite psqrt_lanes, lane_map by assumption. fold v. unfold psqrt_lane.
    rewrite Hfast, Hge, Z.land_0_r. apply andnot_zero. }
  split; [exact E|]. intros Hx0. rewrite E. unfold sqrt_newton.
  replace (mulss (rsqrtss v) _) with (quiet 24 (rsqrtss v))
    by (symmetry; apply lift2_nan_l; assumption).
  unfold mulss. rewrite lift2_nan_r by (assumption || (apply is_nan_quiet; assumption)).
  apply quiet_idem.
Qed.
End LaneKernels.

(** Property X5.  The sine of a NaN lane is that NaN, quieted; the sine of
    an infinite lane is the default NaN, since the range reduction adds
    infinities of opposite signs. *)
Theorem psin_nonfinite cfg x i :
  wf_Packet8f x = true -> (i < 8)%nat ->
  let v := lane i x in
  (is_nan 24 8 v = true -> lane i (psin cfg x) = quiet 24 v) /\
  (v = 0x7F800000 \/ v = 0xFF800000 -> lane i (psin cfg x) = 0xFFC00000).
Proof.
  intros Hx Hi v. rewrite psin_lanes, lane_map by assumption. fold v. split.
  - intros Hn. destruct (psin_lane_nan cfg v Hn) as (Es & Ez & El & Em & Ef).
    unfold psin_lane. rewrite Es, Ez. cbv zeta. rewrite Em, El, Ef.
    rewrite andnot_zero, Z.land_0_l, Z.lor_0_r. apply Z.lxor_0_r.
  - unfold psin_lane, sin_reduced_z, sin_reduced_x, sin_poly_left, sin_poly_right,
      sin_shift_of, maddss.
    intros [-> | ->]; destruct (FMA cfg); vm_compute; reflexivity.
Qed.

(** *** The exact square root *)

Lemma binary_round_aux_valid sx mx ex lx :
  0 <= mx ->
  match binary_round_aux 24 128 sx mx ex lx with
  | S754_nan => False
  | S754_finite _ _ e => -149 <= e <= 104
  | _ => True
  end.
Proof.
  intros H. unfold binary_round_aux.
  destruct (shr_fexp 24 128 mx ex lx) as [mrs' e'] eqn:E1.
  apply shr_fexp_spec in E1; [|assumption]. destruct E1 as (H1 & Ee' & _).
  pose proof (round_nearest_even_bounds (shr_m mrs') (loc_of_shr_record mrs') H1) as R.
  set (m1 := round_nearest_even (shr_m mrs') (loc_of_shr_record mrs')) in *.
  destruct (shr_fexp 24 128 m1 e' loc_Exact) as [mrs'' e''] eqn:E2.
  apply shr_fexp_spec in E2; [|lia]. destruct E2 as (H2 & Ee'' & _).
  unfold fexp, emin in *.
  destruct (shr_m mrs'') as [|p|p] eqn:Em.
  - exact I.
  - destruct (Z.leb_spec e'' (128 - 24)); [lia|exact I].
  - lia.
Qed.

Lemma SFsqrt_positive_valid m e :
  match SFsqrt 24 128 (S754_finite false m e) with
  | S754_nan => False
  | S754_finite _ _ e' => -149 <= e' <= 104
  | _ => True
  end.
Proof.
  cbn [SFsqrt]. unfold SFsqrt_core_binary.
  set (e' := Z.min _ _).
  set (m' := match e - 2 * e' with Z.pos _ => _ | 0 => _ | Z.neg _ => _ end).
  assert (Hm : 0 <= m').
  { unfold m'. destruct (e - 2 * e'); try lia. apply Z.shiftl_nonneg. lia. }
  pose proof (Z.sqrtrem_spec m' Hm) as Hs.
  destruct (Z.sqrtrem m') as [q r].
  apply binary_round_aux_valid. lia.
Qed.

Lemma encode_valid_not_nan f :
  match f with
  | S754_nan => False
  | S754_finite _ _ e => -149 <= e <= 104
  | _ => True
  end ->
  is_nan 24 8 (encode 24 8 f) = false.
Proof.
  destruct f as [[]|[]| |s m e]; intros H;
    [vm_compute; reflexivity|vm_compute; reflexivity|vm_compute; reflexivity
    |vm_compute; reflexivity|contradiction|].
  apply finite_pattern_not_nan, encode_finite_pattern. exact H.
Qed.

Lemma sqrtss_negative v : lt_oq 24 8 v 0 = true -> sqrtss v = 0xFFC00000.
Proof.
  intros Hneg. unfold sqrtss, lift1.
  assert (Hnn : is_nan 24 8 v = false).
  { apply decode_not_nan. destruct (negative_class v Hneg) as [E|(m & e & E)];
      rewrite E; discriminate. }
  rewrite Hnn. destruct (negative_class v Hneg) as [E|(m & e & E)]; rewrite E; reflexivity.
Qed.

Lemma sqrtss_nan_iff v :
  is_nan 24 8 (sqrtss v) = true <-> is_nan 24 8 v = true \/ lt_oq 24 8 v 0 = true.
Proof.
  split.
  - intros H. destruct (is_nan 24 8 v) eqn:Hn; [left; reflexivity|right].
    unfold sqrtss, lift1 in H. rewrite Hn in H.
    unfold lt_oq. rewrite decode_zero.
    destruct (decode 24 8 v) as [s|[]| |[] m e] eqn:D; try reflexivity; exfalso.
    + destruct s; vm_compute in H; discriminate.
    + vm_compute in H; discriminate.
    + apply decode_nan in D. congruence.
    + rewrite encode_valid_not_nan in H by apply SFsqrt_positive_valid. discriminate.
  - intros [H|H].
    + unfold sqrtss. rewrite lift1_nan by assumption. apply is_nan_quiet. assumption.
    + rewrite sqrtss_negative by assumption. reflexivity.
Qed.

Lemma SFdiv_one_valid d :
  d <> S754_nan ->
  match SFdiv 24 128 (S754_finite false 8388608 (-23)) d with
  | S754_nan => False
  | S754_finite _ _ e => -149 <= e <= 104
  | _ => True
  end.
Proof.
  intros Hd. destruct d as [s|s| |s m e]; try exact I; [congruence|].
  cbn [SFdiv]. unfold SFdiv_core_binary.
  set (e' := Z.min _ _).
  set (m' := match -23 - e - e' with Z.pos _ => _ | 0 => _ | Z.neg _ => _ end).
  assert (Hm : 0 <= m').
  { unfold m'. destruct (-23 - e - e'); try lia. apply Z.shiftl_nonneg. lia. }
  pose proof (Z.div_pos m' (Z.pos m) Hm ltac:(lia)) as Hq.
  unfold Z.div in Hq. destruct (Z.div_eucl m' (Z.pos m)) as [q r].
  apply binary_round_aux_valid. exact Hq.
Qed.

Lemma divss_one_nan_iff s :
  is_nan 24 8 (divss f_one s) = true <-> is_nan 24 8 s = true.
Proof.
  unfold divss, lift2.
  replace (is_nan 24 8 f_one) with false by (vm_compute; reflexivity).
  replace (decode 24 8 f_one) with (S754_finite false 8388608 (-23))
    by (vm_compute; reflexivity).
  destruct (is_nan 24 8 s) eqn:Hs.
  - split; [reflexivity|]. intros _. apply is_nan_quiet. assumption.
  - rewrite encode_valid_not_nan; [tauto|].
    apply SFdiv_one_valid. intros D. apply decode_nan in D. congruence.
Qed.

Section ExactKernels.
Variable rsqrtss : Z -> Z.

(** Property X8.  The exact square root returns zeros and plus infinity
    unchanged, the sign of a zero included, and the default NaN for every
    lane below zero, minus infinity included; the lane returned is a NaN
    exactly when the input is a NaN or is below zero. *)
Theorem psqrt_exact_special cfg x i :
  EIGEN_FAST_MATH cfg = false -> wf_Packet8f x = true -> (i < 8)%nat ->
  let v := lane i x in
  let r := lane i (psqrt rsqrtss cfg x) in
  (v = 0 \/ v = 0x80000000 \/ v = 0x7F800000 -> r = v) /\
  (lt_oq 24 8 v 0 = true -> r = 0xFFC00000) /\
  (is_nan 24 8 r = true <-> is_nan 24 8 v = true \/ lt_oq 24 8 v 0 = true).
Proof.
  intros Hex Hx Hi v r.
  assert (E : r = sqrtss v).
  { unfold r. rewrite psqrt_lanes, lane_map by assumption. unfold psqrt_lane.
    rewrite Hex. reflexivity. }
  rewrite E. split; [|split].
  - intros [-> | [-> | ->]]; vm_compute; reflexivity.
  - apply sqrtss_negative.
  - apply sqrtss_nan_iff.
Qed.

(** Property X9.  The reciprocal square root by division returns plus
    infinity for +0, minus infinity for -0, +0 for plus infinity and the
    default NaN for every lane below zero; the lane returned is a NaN
    exactly when the input is a NaN or is below zero. *)
Theorem prsqrt_exact_special cfg x i :
  EIGEN_FAST_MATH cfg = false -> wf_Packet8f x = true -> (i < 8)%nat ->
  let v := lane i x in
  let r := lane i (prsqrt rsqrtss cfg x) in
  (v = 0 -> r = 0x7F800000) /\
  (v = 0x80000000 -> r = 0xFF800000) /\
  (v = 0x7F800000 -> r = 0) /\
  (lt_oq 24 8 v 0 = true -> r = 0xFFC00000) /\
  (is_nan 24 8 r = true <-> is_nan 24 8 v = true \/ lt_oq 24 8 v 0 = true).
Proof.
  intros Hex Hx Hi v r.
  assert (E : r = divss f_one (sqrtss v)).
  { unfold r. rewrite prsqrt_lanes, lane_map by assumption. unfold prsqrt_lane.
    rewrite Hex. reflexivity. }
  rewrite E. split; [|split; [|split; [|split]]].
  - intros ->. vm_compute. reflexivity.
  - intros ->. vm_compute. reflexivity.
  - intros ->. vm_compute. reflexivity.
  - intros H. rewrite sqrtss_negative by assumption. vm_compute. reflexivity.
  - rewrite <- sqrtss_nan_iff. apply divss_one_nan_iff.
Qed.
End ExactKernels.

(** *** Double precision *)

Lemma lor_hidden_bit64_pos m : 0 <= m -> exists p, Z.lor m (Z.shiftl 1 52) = Z.pos p.
Proof.
  intros Hm. destruct (Z.lor m (Z.shiftl 1 52)) as [|p|p] eqn:E.
  - assert (Z.testbit (Z.lor m (Z.shiftl 1 52)) 52 = true).
    { rewrite Z.lor_spec. replace (Z.testbit (Z.shiftl 1 52) 52) with true by reflexivity.
      apply orb_true_r. }
    rewrite E in H. discriminate.
  - eauto.
  - assert (0 <= Z.lor m (Z.shiftl 1 52)) by (apply Z.lor_nonneg; split; [assumption|apply Z.shiftl_nonneg; lia]).
    lia.
Qed.

Lemma decode_nan64 b : decode 53 11 b = S754_nan <-> is_nan 53 11 b = true.
Proof.
  unfold decode, is_nan. change (mant_bits 53) with 52.
  assert (Hm : 0 <= mant_field 53 b < 2 ^ 52)
    by (unfold mant_field; apply (land_ones_range 52); lia).
  destruct (exp_field 53 11 b =? 0) eqn:E0.
  - apply Z.eqb_eq in E0. rewrite E0.
    replace (0 =? Z.ones 11) with false by reflexivity. rewrite andb_false_l.
    destruct (mant_field 53 b); split; discriminate.
  - destruct (exp_field 53 11 b =? Z.ones 11) eqn:E1.
    + rewrite andb_true_l.
      destruct (mant_field 53 b =? 0); cbv [negb]; split; congruence.
    + destruct (lor_hidden_bit64_pos (mant_field 53 b) ltac:(lia)) as [p ->].
      rewrite andb_false_l. split; discriminate.
Qed.

Lemma is_nan_quiet64 w : is_nan 53 11 w = true -> is_nan 53 11 (quiet 53 w) = true.
Proof.
  intros H. unfold is_nan in *. apply andb_true_iff in H.
  destruct H as [He Hm]. apply andb_true_iff. split.
  - rewrite <- He. f_equal. unfold exp_field, quiet. change (mant_bits 53) with 52.
    apply Z.bits_inj'. intros i Hi.
    rewrite !Z.land_spec, !Z.shiftr_spec, Z.lor_spec by lia.
    change (Z.shiftl 1 (52 - 1)) with (2 ^ 51). rewrite Z.pow2_bits_eqb by lia.
    destruct (Z.eqb_spec 51 (i + 52)); [lia|]. rewrite orb_false_r. reflexivity.
  - apply negb_true_iff, Z.eqb_neq. intros E.
    assert (B : Z.testbit (mant_field 53 (quiet 53 w)) 51 = true).
    { unfold mant_field, quiet. change (mant_bits 53) with 52.
      rewrite Z.land_spec, Z.lor_spec. change (Z.shiftl 1 (52 - 1)) with (2 ^ 51).
      rewrite Z.pow2_bits_eqb, Z.ones_spec_low by lia.
      rewrite Z.eqb_refl, orb_true_r. reflexivity. }
    rewrite E in B. rewrite Z.bits_0 in B. discriminate.
Qed.

Lemma quiet_idem64 a : quiet 53 (quiet 53 a) = quiet 53 a.
Proof. unfold quiet. rewrite <- Z.lor_assoc, Z.lor_diag. reflexivity. Qed.

Lemma negative_class64 v :
  lt_oq 53 11 v 0 = true ->
  is_nan 53 11 v = false /\
  (decode 53 11 v = S754_infinity true \/ exists m e, decode 53 11 v = S754_finite true m e).
Proof.
  unfold lt_oq. replace (decode 53 11 0) with (S754_zero false) by reflexivity.
  intros H.
  assert (C : decode 53 11 v = S754_infinity true \/
              exists m e, decode 53 11 v = S754_finite true m e).
  { destruct (decode 53 11 v) as [s|[]| |[] m e]; cbv [SFltb SFcompare] in H;
      try discriminate; eauto. }
  split; [|exact C].
  destruct (is_nan 53 11 v) eqn:N; [|reflexivity].
  apply decode_nan64 in N. destruct C as [E|(m & e & E)]; congruence.
Qed.

Lemma sqrtsd_negative v : lt_oq 53 11 v 0 = true -> sqrtsd v = 0xFFF8000000000000.
Proof.
  intros H. destruct (negative_class64 v H) as [Hn C].
  unfold sqrtsd, lift1. rewrite Hn.
  destruct C as [E|(m & e & E)]; rewrite E; reflexivity.
Qed.

Lemma Packet4d_lanes x i :
  wf_Packet4d x = true -> (i < 4)%nat ->
  lane i (psqrt_Packet4d x) = sqrtsd (lane i x) /\
  lane i (prsqrt_Packet4d x) = divsd d_one (sqrtsd (lane i x)).
Proof.
  intros Hwf Hi. destruct (wf_Packet4d_inv x Hwf) as (a0 & a1 & a2 & a3 & ->).
  revert i Hi. apply lane_cases4; split; reflexivity.
Qed.

(** Property X11.  In double precision the square root and the reciprocal
    square root of a lane below zero are the default NaN, a NaN lane is
    returned quieted, and the zeros and plus infinity give the IEEE values:
    the zero itself and the infinity of its sign, plus infinity and +0. *)
Theorem double_precision_special x i :
  wf_Packet4d x = true -> (i < 4)%nat ->
  let v := lane i x in
  let s := lane i (psqrt_Packet4d x) in
  let r := lane i (prsqrt_Packet4d x) in
  (lt_oq 53 11 v 0 = true -> s = 0xFFF8000000000000 /\ r = 0xFFF8000000000000) /\
  (is_nan 53 11 v = true -> s = quiet 53 v /\ r = quiet 53 v) /\
  (v = 0 -> s = 0 /\ r = 0x7FF0000000000000) /\
  (v = 0x8000000000000000 -> s = 0x8000000000000000 /\ r = 0xFFF0000000000000) /\
  (v = 0x7FF0000000000000 -> s = 0x7FF0000000000000 /\ r = 0).
Proof.
  intros Hwf Hi v s r. destruct (Packet4d_lanes x i Hwf Hi) as [Es Er].
  fold v s in Es. fold v r in Er. rewrite Er, Es. clear Es Er.
  split; [|split; [|split; [|split]]].
  - intros H. rewrite sqrtsd_negative by assumption. split; vm_compute; reflexivity.
  - intros H. assert (E : sqrtsd v = quiet 53 v) by (unfold sqrtsd, lift1; rewrite H; reflexivity).
    rewrite E. split; [reflexivity|].
    unfold divsd, lift2. replace (is_nan 53 11 d_one) with false by (vm_compute; reflexivity).
    rewrite (is_nan_quiet64 v H). apply quiet_idem64.
  - intros ->. split; vm_compute; reflexivity.
  - intros ->. split; vm_compute; reflexivity.
  - intros ->. split; vm_compute; reflexivity.
Qed.

(* ================================================================== *)
(** ** The further properties on concrete packets *)

Lemma pshiftleft_wraps_witness :
  (wf_Packet8f sample_angles = true /\ 0 <= 31 /\ (2 < 8)%nat) /\
  (pshiftleft cfg_fast sample_angles 31 = pshiftleft cfg_fast_plain sample_angles 31 /\
   lane 2 (pshiftleft cfg_fast sample_angles 31) =
     (if 31 <=? 31 then (lane 2 sample_angles * 2 ^ 31) mod 2 ^ 32 else 0) /\
   wf_Packet8f (pshiftleft cfg_fast sample_angles 31) = true).
Proof.
  split; [repeat split; solve [reflexivity | lia]|].
  exact (pshiftleft_wraps cfg_fast cfg_fast_plain sample_angles 31 2
           ltac:(reflexivity) ltac:(lia) ltac:(lia)).
Defined.

Lemma pshiftleft_compose_witness :
  (wf_Packet8f sample_angles = true /\ 0 <= 3 /\ 0 <= 30) /\
  (pshiftleft cfg_fast_plain (pshiftleft cfg_fast_plain sample_angles 3) 30 =
     pshiftleft cfg_fast_plain sample_angles (3 + 30) /\
   pshiftleft cfg_fast_plain sample_angles 0 = sample_angles).
Proof.
  split; [repeat split; solve [reflexivity | lia]|].
  exact (pshiftleft_compose cfg_fast_plain sample_angles 3 30
           ltac:(reflexivity) ltac:(lia) ltac:(lia)).
Defined.

Lemma kernels_lanewise_witness :
  (wf_Packet8f sample_roots = true /\ wf_Packet8f sample_special = true /\ (1 < 8)%nat /\
   lane 1 sample_roots = lane 1 sample_special) /\
  (lane 1 (psin cfg_fast sample_roots) = lane 1 (psin cfg_fast sample_special) /\
   lane 1 (psqrt rsqrtss_reference cfg_fast sample_roots) =
     lane 1 (psqrt rsqrtss_reference cfg_fast sample_special) /\
   lane 1 (prsqrt rsqrtss_reference cfg_fast sample_roots) =
     lane 1 (prsqrt rsqrtss_reference cfg_fast sample_special)).
Proof.
  split; [repeat split; solve [reflexivity | lia]|].
  exact (kernels_lanewise rsqrtss_reference cfg_fast sample_roots sample_special 1
           ltac:(reflexivity) ltac:(reflexivity) ltac:(lia) ltac:(reflexivity)).
Defined.

Lemma kernels_keep_packets_witness :
  ((forall a, is_u32 a = true -> is_u32 (rsqrtss_reference a) = true) /\
   wf_Packet8f sample_special = true) /\
  (wf_Packet8f (psin cfg_fast sample_special) = true /\
   wf_Packet8f (psqrt rsqrtss_reference cfg_fast sample_special) = true /\
   wf_Packet8f (prsqrt rsqrtss_reference cfg_fast sample_special) = true).
Proof.
  split; [split; [exact rsqrtss_reference_range|reflexivity]|].
  exact (kernels_keep_packets rsqrtss_reference cfg_fast sample_special
           rsqrtss_reference_range ltac:(reflexivity)).
Defined.

Lemma psin_nonfinite_witness :
  (wf_Packet8f sample_special = true /\ (3 < 8)%nat) /\
  (is_nan 24 8 (lane 3 sample_special) = true /\
   lane 3 (psin cfg_fast_plain sample_special) = quiet 24 (lane 3 sample_special) /\
   lane 4 (psin cfg_fast_plain sample_special) = 0xFFC00000).
Proof.
  split; [split; [reflexivity|lia]|].
  split; [vm_compute; reflexivity|]. split.
  - exact (proj1 (psin_nonfinite cfg_fast_plain sample_special 3 ltac:(reflexivity) ltac:(lia))
             ltac:(vm_compute; reflexivity)).
  - exact (proj2 (psin_nonfinite cfg_fast_plain sample_special 4 ltac:(reflexivity) ltac:(lia))
             ltac:(left; reflexivity)).
Defined.

Lemma psqrt_nan_witness :
  (wf_Packet8f sample_special = true /\ (2 < 8)%nat /\
   is_nan 24 8 (lane 2 sample_special) = true) /\
  (lane 2 (psqrt rsqrtss_reference cfg_fast sample_special) = quiet 24 (lane 2 sample_special) /\
   is_nan 24 8 (lane 2 (psqrt rsqrtss_reference cfg_fast sample_special)) = true).
Proof.
  split; [repeat split; solve [reflexivity | lia]|].
  exact (psqrt_nan rsqrtss_reference cfg_fast sample_special 2
           ltac:(reflexivity) ltac:(lia) ltac:(reflexivity)).
Defined.

Lemma prsqrt_nan_witness :
  (wf_Packet8f sample_special = true /\ (2 < 8)%nat /\
   is_nan 24 8 (lane 2 sample_special) = true) /\
  is_nan 24 8 (lane 2 (prsqrt rsqrtss_reference cfg_fast sample_special)) = true.
Proof.
  split; [repeat split; solve [reflexivity | lia]|].
  exact (proj2 (prsqrt_nan rsqrtss_reference cfg_fast sample_special 2
                  ltac:(reflexivity) ltac:(lia) ltac:(reflexivity))).
Defined.

Lemma prsqrt_fast_infinity_witness :
  (EIGEN_FAST_MATH cfg_fast = true /\ rsqrtss_reference 0x7F800000 = 0 /\
   wf_Packet8f sample_roots = true /\ (5 < 8)%nat /\ lane 5 sample_roots = 0x7F800000) /\
  (lane 5 (prsqrt rsqrtss_reference cfg_fast sample_roots) = 0xFFC00000 /\
   lane 5 (prsqrt_exact sample_roots) = 0).
Proof.
  split; [repeat split; solve [vm_compute; reflexivity | lia]|].
  exact (prsqrt_fast_infinity rsqrtss_reference cfg_fast sample_roots 5
           ltac:(reflexivity) ltac:(vm_compute; reflexivity) ltac:(reflexivity) ltac:(lia)
           ltac:(reflexivity)).
Defined.

Lemma psqrt_fast_negative_witness :
  (EIGEN_FAST_MATH cfg_fast = true /\ wf_Packet8f sample_roots = true /\ (3 < 8)%nat /\
   lt_oq 24 8 (lane 3 sample_roots) 0 = true) /\
  (lane 3 (psqrt rsqrtss_reference cfg_fast sample_roots) =
     mulss (lane 3 sample_roots)
       (sqrt_newton (rsqrtss_reference (lane 3 sample_roots)) (lane 3 sample_roots)) /\
   (is_nan 24 8 (rsqrtss_reference (lane 3 sample_roots)) = true ->
    lane 3 (psqrt rsqrtss_reference cfg_fast sample_roots) =
      quiet 24 (rsqrtss_reference (lane 3 sample_roots)))).
Proof.
  split; [repeat split; solve [vm_compute; reflexivity | lia]|].
  exact (psqrt_fast_negative rsqrtss_reference cfg_fast sample_roots 3
           ltac:(reflexivity) ltac:(reflexivity) ltac:(lia) ltac:(vm_compute; reflexivity)).
Defined.

Lemma psqrt_exact_special_witness :
  (EIGEN_FAST_MATH cfg_exact = false /\ wf_Packet8f sample_roots = true /\ (3 < 8)%nat) /\
  (lt_oq 24 8 (lane 3 sample_roots) 0 = true /\
   lane 3 (psqrt rsqrtss_reference cfg_exact sample_roots) = 0xFFC00000).
Proof.
  split; [repeat split; solve [reflexivity | lia]|].
  split; [vm_compute; reflexivity|].
  exact (proj1 (proj2 (psqrt_exact_special rsqrtss_reference cfg_exact sample_roots 3
                         ltac:(reflexivity) ltac:(reflexivity) ltac:(lia)))
           ltac:(vm_compute; reflexivity)).
Defined.

Lemma prsqrt_exact_special_witness :
  (EIGEN_FAST_MATH cfg_exact = false /\ wf_Packet8f sample_roots = true /\ (6 < 8)%nat) /\
  (lane 6 sample_roots = 0x80000000 /\
   lane 6 (prsqrt rsqrtss_reference cfg_exact sample_roots) = 0xFF800000).
Proof.
  split; [repeat split; solve [reflexivity | lia]|].
  split; [reflexivity|].
  exact (proj1 (proj2 (prsqrt_exact_special rsqrtss_reference cfg_exact sample_roots 6
                         ltac:(reflexivity) ltac:(reflexivity) ltac:(lia)))
           ltac:(reflexivity)).
Defined.

Lemma double_precision_special_witness :
  (wf_Packet4d sample_doubles = true /\ (3 < 4)%nat) /\
  (lt_oq 53 11 (lane 3 sample_doubles) 0 = true /\
   lane 3 (psqrt_Packet4d sample_doubles) = 0xFFF8000000000000 /\
   lane 3 (prsqrt_Packet4d sample_doubles) = 0xFFF8000000000000).
Proof.
  split; [split; [reflexivity|lia]|].
  split; [vm_compute; reflexivity|].
  exact (proj1 (double_precision_special sample_doubles 3 ltac:(reflexivity) ltac:(lia))
           ltac:(vm_compute; reflexivity)).
Defined.
